(** * Gestr: the stability filter, the session store and the worker bridge

    A shallow embedding of [server.js] (letter accumulation, session
    hand-off) and [letterClassifier.js] (the bridge to the Python worker),
    with the properties of the specification stated over it. *)

From Stdlib Require Import ZArith NArith List String Ascii Lia.
From Stdlib Require Import Floats.Floats.
From stdpp Require Import base option list gmap pretty.

Set Warnings "-inexact-float,-register-all".

Local Open Scope Z_scope.

(** * Part 1: the program *)

(** ** JavaScript values *)

(** A JavaScript string is a sequence of UTF-16 code units. *)
Definition jsstring : Type := list N.

(** An ASCII literal as a JavaScript string. *)
Definition str (s : string) : jsstring :=
  List.map N_of_ascii (list_ascii_of_string s).

Arguments str s%_string.

(** The values [JSON.parse] produces.  An object is the list of its own
    properties, every key occurring once. *)
Inductive Json : Type :=
  | JNull
  | JBool (b : bool)
  | JNum (f : float)
  | JStr (s : jsstring)
  | JArr (l : list Json)
  | JObj (o : list (jsstring * Json)).

(** A JavaScript value as the handlers receive it: [None] is [undefined]. *)
Definition JsValue : Type := option Json.

(** [WhiteSpace] and [LineTerminator] code units, the ones
    [String.prototype.trim] strips. *)
Definition isWhiteSpace (c : N) : bool :=
  ((9 <=? c) && (c <=? 13) || (c =? 32) || (c =? 160) || (c =? 5760)
   || (8192 <=? c) && (c <=? 8202) || (c =? 8232) || (c =? 8233)
   || (c =? 8239) || (c =? 8287) || (c =? 12288) || (c =? 65279))%N.

Fixpoint trimStart (s : jsstring) : jsstring :=
  match s with
  | c :: s' => if isWhiteSpace c then trimStart s' else s
  | [] => []
  end.

Definition trim (s : jsstring) : jsstring :=
  rev (trimStart (rev (trimStart s))).

(** [String.prototype.toUpperCase], one code unit at a time.  The table is
    exact on Basic Latin and on the two other code units whose upper case
    is a Basic Latin letter (U+0131 dotless i, U+017F long s); it keeps the
    sharp s, whose upper case is two letters.  Every other code unit is
    left as it is: its upper case lies outside [A-Z], as it does itself. *)
Definition toUpperCaseUnit (c : N) : list N :=
  (if (97 <=? c) && (c <=? 122) then [c - 32]
   else if c =? 305 then [73]
   else if c =? 383 then [83]
   else if c =? 223 then [83; 83]
   else [c])%N.

Definition toUpperCase (s : jsstring) : jsstring :=
  List.concat (List.map toUpperCaseUnit s).

(** [/^[A-Z]$/.test(s)]: exactly one code unit, between [A] and [Z]. *)
Definition isSingleCapital (s : jsstring) : bool :=
  match s with
  | [c] => ((65 <=? c) && (c <=? 90))%N
  | _ => false
  end.

(** [Array.prototype.join("")]. *)
Definition join (l : list jsstring) : jsstring := List.concat l.

(** ** server.js: configuration *)

Definition MIN_CONFIDENCE : float := 0.7%float.

(** [parseInt(process.env.STABILITY_COUNT) || 3]; the argument is the result
    of [parseInt], [None] standing for [NaN]. *)
Definition stabilityCount (parsed : option Z) : Z :=
  match parsed with
  | Some n => if n =? 0 then 3 else n
  | None => 3
  end.

(** ** server.js: normalizeLetter *)

(** Anything but a non-empty string is refused at line 37; [None] is the
    [null] the function returns. *)
Definition normalizeLetter (letter : JsValue) : option jsstring :=
  match letter with
  | Some (JStr s) =>
      match s with
      | [] => None
      | _ =>
          let upper := toUpperCase (trim s) in
          if isSingleCapital upper then Some upper else None
      end
  | _ => None
  end.

(** ** server.js: sessions *)

Record Session : Type := mkSession {
  letters : list jsstring;
  recentPredictions : list jsstring;
  updatedAt : Z
}.

Inductive Reason : Type :=
  | low_confidence
  | invalid_letter
  | insufficient_stability
  | unstable.

(** The object [accumulateLetter] returns.  [r_letters] is a snapshot of the
    session's array at the time of the return. *)
Record Accumulation : Type := mkAccumulation {
  r_sessionId : jsstring;
  r_letters : list jsstring;
  accumulatedText : jsstring;
  accepted : bool;
  reason : option Reason;
  acceptedLetter : option jsstring;
  stabilityProgress : option nat;
  stabilityRequired : option Z
}.

Definition newSession (now : Z) : Session :=
  mkSession [] [] now.

(** [letterSessions.get(sessionId)] after the creation on first use. *)
Definition sessionOf (sessions : gmap jsstring Session) (sessionId : jsstring)
    (now : Z) : Session :=
  match sessions !! sessionId with
  | Some s => s
  | None => newSession now
  end.

Definition rejected (sessionId : jsstring) (s : Session) (r : Reason)
    (progress : option nat) (required : option Z) : Accumulation :=
  mkAccumulation sessionId (letters s) (join (letters s)) false (Some r) None
    progress required.

Section Accumulate.

Variable STABILITY_COUNT : Z.

(** Lines 84-87: push, then drop the oldest entry when too long. *)
Definition pushRecent (w : list jsstring) (c : jsstring) : list jsstring :=
  let w' := w ++ [c] in
  if Z.of_nat (length w') >? STABILITY_COUNT then tail w' else w'.

(** [accumulateLetter(letter, confidence, sessionId)].  [now] is what
    [Date.now()] returns where the session is created and [now'] what it
    returns at the commit.  The session object is mutated in place, which
    the store records by an insertion under the same key. *)
Definition accumulateLetter (now now' : Z) (letter : JsValue)
    (confidence : float) (sessionId : jsstring)
    (sessions : gmap jsstring Session)
    : Accumulation * gmap jsstring Session :=
  let session := sessionOf sessions sessionId now in
  let sessions := <[sessionId := session]> sessions in
  let cleanLetter := normalizeLetter letter in
  if (confidence <? MIN_CONFIDENCE)%float then
    (rejected sessionId session low_confidence None None, sessions)
  else
    match cleanLetter with
    | None => (rejected sessionId session invalid_letter None None, sessions)
    | Some c =>
        let recent := pushRecent (recentPredictions session) c in
        let session :=
          mkSession (letters session) recent (updatedAt session) in
        let sessions := <[sessionId := session]> sessions in
        if Z.of_nat (length recent) <? STABILITY_COUNT then
          (rejected sessionId session insufficient_stability
             (Some (length recent)) (Some STABILITY_COUNT), sessions)
        else
          let allSame := forallb (fun p => bool_decide (p = c)) recent in
          if negb allSame then
            (rejected sessionId session unstable None None, sessions)
          else
            let session :=
              if bool_decide (last (letters session) ≠ Some c) then
                mkSession (letters session ++ [c]) [] now'
              else session in
            let sessions := <[sessionId := session]> sessions in
            (mkAccumulation sessionId (letters session)
               (join (letters session)) true None (Some c) None None,
             sessions)
    end.

End Accumulate.

(** ** server.js: the routes that change the store *)

(** [POST /api/clear-session]: the session is removed as a whole. *)
Definition clearSession (sessionId : jsstring)
    (sessions : gmap jsstring Session) : gmap jsstring Session :=
  if bool_decide (is_Some (sessions !! sessionId)) then
    delete sessionId sessions
  else sessions.

(** The body of a request to [/api/send-to-gemini]; an absent body is read
    as the empty object, which is the record with both fields absent. *)
Record SendBody : Type := mkSendBody {
  bodySessionId : option jsstring;
  bodyText : JsValue
}.

Inductive HttpResponse : Type :=
  | Sentence (sentence originalText : jsstring)
  | BadRequest (error : jsstring)
  | ServerError (error message : jsstring).

(** What the sentence-formation provider does with one prompt (lines
    184-194): it answers with a text, or one of the calls throws. *)
Inductive GeminiOutcome : Type :=
  | Answer (text : jsstring)
  | Failure (message : jsstring).

Definition quote : jsstring := [34%N].

Definition promptFor (sanitized : jsstring) : jsstring :=
  str "Letters captured from ASL fingerspelling: " ++ quote ++ sanitized
  ++ quote
  ++ str ". Convert them into a natural English sentence. "
  ++ str "Respond with only the final sentence.".

(** The handler runs in two synchronous parts, split at the [await] of line
    193.  The first part (lines 173-192) only reads the store: it answers
    at once, or it is suspended on the remote call with the session
    identifier and the text it has read. *)
Inductive Started : Type :=
  | Responded (response : HttpResponse)
  | Awaiting (sessionId sanitized prompt : jsstring).

Definition sendToGemini_start (body : SendBody)
    (sessions : gmap jsstring Session) : Started :=
  let sessionId := default (str "default") (bodySessionId body) in
  let session := sessions !! sessionId in
  let fromSession := (fun s => join (letters s)) <$> session in
  let accumulated : option (option jsstring) :=
    match bodyText body with
    | None | Some JNull => Some fromSession
    | Some (JStr t) =>
        match trim t with
        | [] => Some fromSession
        | t' => Some (Some t')
        end
    | Some _ => None
    end in
  match accumulated with
  | None =>
      Responded (ServerError (str "Failed to generate sentence")
                   (str "text?.trim is not a function"))
  | Some None | Some (Some []) =>
      Responded
        (BadRequest (str "No accumulated text found for this session."))
  | Some (Some text) =>
      let sanitized := trim text in
      Awaiting sessionId sanitized (promptFor sanitized)
  end.

(** The second part (lines 194-210) runs when the remote call has settled,
    on the store as it is by then. *)
Definition sendToGemini_resume (sessionId sanitized : jsstring)
    (outcome : GeminiOutcome) (sessions : gmap jsstring Session)
    : HttpResponse * gmap jsstring Session :=
  match outcome with
  | Answer text =>
      let sentence := trim text in
      let sessions :=
        if bool_decide (is_Some (sessions !! sessionId)) then
          delete sessionId sessions
        else sessions in
      (Sentence sentence sanitized, sessions)
  | Failure message =>
      (ServerError (str "Failed to generate sentence") message, sessions)
  end.

(** The whole handler when nothing else runs during the remote call. *)
Definition sendToGemini (body : SendBody) (outcome : GeminiOutcome)
    (sessions : gmap jsstring Session)
    : HttpResponse * gmap jsstring Session :=
  match sendToGemini_start body sessions with
  | Responded response => (response, sessions)
  | Awaiting sessionId sanitized _ =>
      sendToGemini_resume sessionId sanitized outcome sessions
  end.

(** What happens to the store, one synchronous step at a time: a frame is
    accumulated (the only statement of [/api/classify-letter] that touches
    the store), a session is cleared, or a suspended hand-off resumes. *)
Inductive ServerEvent : Type :=
  | Accumulated (now now' : Z) (letter : JsValue) (confidence : float)
      (sessionId : jsstring)
  | Cleared (sessionId : jsstring)
  | Resumed (sessionId sanitized : jsstring) (outcome : GeminiOutcome).

Definition serverStep (STABILITY_COUNT : Z) (e : ServerEvent)
    (sessions : gmap jsstring Session) : gmap jsstring Session :=
  match e with
  | Accumulated now now' letter confidence sessionId =>
      snd (accumulateLetter STABILITY_COUNT now now' letter confidence
             sessionId sessions)
  | Cleared sessionId => clearSession sessionId sessions
  | Resumed sessionId sanitized outcome =>
      snd (sendToGemini_resume sessionId sanitized outcome sessions)
  end.

Definition serverRun (STABILITY_COUNT : Z) (events : list ServerEvent)
    (sessions : gmap jsstring Session) : gmap jsstring Session :=
  foldl (fun m e => serverStep STABILITY_COUNT e m) sessions events.

(** The stores the server can be in: it starts with no session. *)
Inductive reachable (STABILITY_COUNT : Z) : gmap jsstring Session -> Prop :=
  | reachable_start : reachable STABILITY_COUNT ∅
  | reachable_step e sessions :
      reachable STABILITY_COUNT sessions ->
      reachable STABILITY_COUNT (serverStep STABILITY_COUNT e sessions).

(** ** letterClassifier.js: the bridge to the Python worker *)

Definition REQUEST_TIMEOUT_MS : Z := 12000.

(** A [Map] keeps its keys in insertion order, which is the order
    [pendingRequests.values()] walks them in. *)
Definition mapGet {V : Type} (k : jsstring) (m : list (jsstring * V))
    : option V :=
  snd <$> List.find (fun kv => bool_decide (fst kv = k)) m.

Definition mapHas {V : Type} (k : jsstring) (m : list (jsstring * V)) : bool :=
  bool_decide (is_Some (mapGet k m)).

Definition mapSet {V : Type} (k : jsstring) (v : V)
    (m : list (jsstring * V)) : list (jsstring * V) :=
  if mapHas k m then
    List.map (fun kv => if bool_decide (fst kv = k) then (k, v) else kv) m
  else m ++ [(k, v)].

Definition mapDelete {V : Type} (k : jsstring) (m : list (jsstring * V))
    : list (jsstring * V) :=
  List.filter (fun kv => negb (bool_decide (fst kv = k))) m.

Arguments mapGet : simpl never.
Arguments mapSet : simpl never.
Arguments mapDelete : simpl never.

(** The child process object, as far as the module looks at it. *)
Record Process : Type := mkProcess {
  pid : nat;
  killed : bool
}.

(** The value of [pendingRequests]: the promise whose [resolve] and
    [reject] it holds, and the timer of its deadline. *)
Record PendingEntry : Type := mkPending {
  pendingPromise : nat;
  pendingTimeout : nat
}.

(** A timer armed by [setTimeout]: the request and the promise its callback
    has captured, and the time before which the runtime does not run it. *)
Record Timer : Type := mkTimer {
  timerRequest : jsstring;
  timerPromise : nat;
  timerDue : Z
}.

Inductive ErrorValue : Type :=
  | ErrorMessage (message : jsstring)
  | ErrorOf (payloadError : Json)
  | WriteError.

Inductive LogEntry : Type :=
  | ParseFailure (line : jsstring)
  | WorkerStderr (message : jsstring)
  | WorkerExited (code signal : JsValue).

(** What the module does to the world outside it, in order. *)
Inductive Effect : Type :=
  | Spawned (process : nat)
  | InterfaceClosed (process : nat)
  | StdinEnded (process : nat)
  | Killed (process : nat)
  | Written (process : nat) (message : Json)
  | TimerCleared (timer : nat)
  | Resolved (promise : nat) (letter confidence : JsValue)
  | Rejected (promise : nat) (error : ErrorValue)
  | Logged (entry : LogEntry).

(** The module's variables ([pythonProcess], [stdoutInterface],
    [requestCounter], [pendingRequests]) and what the runtime holds for it:
    the armed timers, the next fresh timer, promise and process, and the
    effects so far. *)
Record Bridge : Type := mkBridge {
  pythonProcess : option Process;
  stdoutInterface : option nat;
  requestCounter : N;
  pendingRequests : list (jsstring * PendingEntry);
  timers : gmap nat Timer;
  nextTimer : nat;
  nextPromise : nat;
  nextProcess : nat;
  effects : list Effect
}.

Definition initialBridge : Bridge :=
  mkBridge None None 0 [] ∅ 0 0 0 [].

Definition emit (e : Effect) (b : Bridge) : Bridge :=
  mkBridge (pythonProcess b) (stdoutInterface b) (requestCounter b)
    (pendingRequests b) (timers b) (nextTimer b) (nextPromise b)
    (nextProcess b) (effects b ++ [e]).

Definition setPending (p : list (jsstring * PendingEntry)) (b : Bridge)
    : Bridge :=
  mkBridge (pythonProcess b) (stdoutInterface b) (requestCounter b) p
    (timers b) (nextTimer b) (nextPromise b) (nextProcess b) (effects b).

Definition setTimers (t : gmap nat Timer) (b : Bridge) : Bridge :=
  mkBridge (pythonProcess b) (stdoutInterface b) (requestCounter b)
    (pendingRequests b) t (nextTimer b) (nextPromise b) (nextProcess b)
    (effects b).

(** [clearTimeout(timeout)]. *)
Definition clearTimeout (timer : nat) (b : Bridge) : Bridge :=
  emit (TimerCleared timer) (setTimers (delete timer (timers b)) b).

(** [startWorker()]: [spawn] hands back a fresh process object, on which
    the handlers below are registered. *)
Definition startWorker (b : Bridge) : Bridge :=
  match pythonProcess b with
  | Some _ => b
  | None =>
      let p := nextProcess b in
      emit (Spawned p)
        (mkBridge (Some (mkProcess p false)) (Some p) (requestCounter b)
           (pendingRequests b) (timers b) (nextTimer b) (nextPromise b)
           (S p) (effects b))
  end.

(** [cleanupWorker()]. *)
Definition cleanupWorker (b : Bridge) : Bridge :=
  let b :=
    match stdoutInterface b with
    | Some i =>
        emit (InterfaceClosed i)
          (mkBridge (pythonProcess b) None (requestCounter b)
             (pendingRequests b) (timers b) (nextTimer b) (nextPromise b)
             (nextProcess b) (effects b))
    | None => b
    end in
  match pythonProcess b with
  | Some p =>
      let b := emit (StdinEnded (pid p)) b in
      let b := if killed p then b else emit (Killed (pid p)) b in
      mkBridge None (stdoutInterface b) (requestCounter b)
        (pendingRequests b) (timers b) (nextTimer b) (nextPromise b)
        (nextProcess b) (effects b)
  | None => b
  end.

Definition ensureWorker (b : Bridge) : Bridge :=
  match pythonProcess b with
  | None => startWorker b
  | Some _ => b
  end.

Definition stopClassifier (b : Bridge) : Bridge := cleanupWorker b.

(** [payload.name]: only an object has own properties that [JSON.parse]
    could have put there. *)
Definition field (name : jsstring) (payload : Json) : JsValue :=
  match payload with
  | JObj o => mapGet name o
  | _ => None
  end.

(** [if (v)]. *)
Definition truthy (v : JsValue) : bool :=
  match v with
  | None | Some JNull => false
  | Some (JBool b) => b
  | Some (JNum f) => negb ((f =? 0) || negb (f =? f))%float
  | Some (JStr s) => negb (bool_decide (s = []))
  | Some (JArr _) | Some (JObj _) => true
  end.

(** How a handler run by the event loop ends: normally, or by an exception
    nobody catches. *)
Inductive Handled : Type :=
  | Done (b : Bridge)
  | Uncaught (b : Bridge).

(** The ["line"] handler of the read-line interface.  [parsed] is what
    [JSON.parse(line)] returns, [None] when it throws. *)
Definition lineHandler (line : jsstring) (parsed : option Json) (b : Bridge)
    : Handled :=
  match trim line with
  | [] => Done b
  | _ =>
      match parsed with
      | None => Done (emit (Logged (ParseFailure line)) b)
      | Some JNull => Uncaught b
      | Some payload =>
          match field (str "id") payload with
          | Some (JStr id) =>
              match mapGet id (pendingRequests b) with
              | None => Done b
              | Some entry =>
                  let b := clearTimeout (pendingTimeout entry) b in
                  let b :=
                    setPending (mapDelete id (pendingRequests b)) b in
                  if truthy (field (str "error") payload) then
                    Done (emit (Rejected (pendingPromise entry)
                                  (ErrorOf (default JNull
                                              (field (str "error") payload))))
                            b)
                  else
                    Done (emit (Resolved (pendingPromise entry)
                                  (field (str "letter") payload)
                                  (field (str "confidence") payload)) b)
              end
          | _ => Done b
          end
      end
  end.

(** The ["data"] handler of the worker's standard error. *)
Definition stderrHandler (message : jsstring) (b : Bridge) : Bridge :=
  emit (Logged (WorkerStderr (trim message))) b.

Definition workerExited : ErrorValue :=
  ErrorMessage (str "Classifier worker exited unexpectedly").

(** The ["exit"] handler of the process. *)
Definition exitHandler (code signal : JsValue) (b : Bridge) : Bridge :=
  let b := emit (Logged (WorkerExited code signal)) b in
  let b := cleanupWorker b in
  let b :=
    fold_left
      (fun b kv =>
         emit (Rejected (pendingPromise (snd kv)) workerExited)
           (clearTimeout (pendingTimeout (snd kv)) b))
      (pendingRequests b) b in
  setPending [] b.

Definition timedOut : ErrorValue :=
  ErrorMessage (str "Classifier request timed out").

(** The callback of line 325, run by the runtime for a timer that is armed
    and due at the time [now]; a timer runs once. *)
Definition timerHandler (timer : nat) (now : Z) (b : Bridge) : Bridge :=
  match timers b !! timer with
  | Some t =>
      if timerDue t <=? now then
        let b := setTimers (delete timer (timers b)) b in
        if mapHas (timerRequest t) (pendingRequests b) then
          emit (Rejected (timerPromise t) timedOut)
            (setPending (mapDelete (timerRequest t) (pendingRequests b)) b)
        else b
      else b
  | None => b
  end.

Inductive Classified : Type :=
  | Returned (promise : nat)
  | Thrown (error : ErrorValue).

Definition requestIdFor (now : Z) (counter : N) : jsstring :=
  str "req_" ++ str (pretty now) ++ str "_" ++ str (pretty counter).

(** [classifyLetterFromBase64(imageBase64)].  [now] is the clock at the
    call and [writeOk] tells whether [stdin.write] returns rather than
    throws. *)
Definition classifyLetterFromBase64 (image : Json) (now : Z) (writeOk : bool)
    (b : Bridge) : Classified * Bridge :=
  let b := ensureWorker b in
  match pythonProcess b with
  | None =>
      (Thrown (ErrorMessage (str "Classifier worker is not available")), b)
  | Some p =>
      if killed p then
        (Thrown (ErrorMessage (str "Classifier worker is not available")), b)
      else
        let counter := (requestCounter b + 1)%N in
        let requestId := requestIdFor now counter in
        let payload :=
          JObj [(str "id", JStr requestId); (str "image", image)] in
        let promise := nextPromise b in
        let timeout := nextTimer b in
        let b :=
          mkBridge (pythonProcess b) (stdoutInterface b) counter
            (mapSet requestId (mkPending promise timeout) (pendingRequests b))
            (<[timeout :=
                 mkTimer requestId promise (now + REQUEST_TIMEOUT_MS)]>
               (timers b))
            (S timeout) (S promise) (nextProcess b) (effects b) in
        if writeOk then (Returned promise, emit (Written (pid p) payload) b)
        else
          let b := clearTimeout timeout b in
          let b := setPending (mapDelete requestId (pendingRequests b)) b in
          (Returned promise, emit (Rejected promise WriteError) b)
  end.

(** ** letterClassifier.js: the bridge as a state machine *)

(** What the event loop can run on the bridge: a call of
    [classifyLetterFromBase64], a handler of the worker's streams or of its
    exit, the callback of a timer, or [stopClassifier]. *)
Inductive BridgeEvent : Type :=
  | Called (image : Json) (now : Z) (writeOk : bool)
  | LineRead (line : jsstring) (parsed : option Json)
  | StderrRead (message : jsstring)
  | Exited (code signal : JsValue)
  | TimerRan (timer : nat) (now : Z)
  | Stopped.

Definition bridgeStep (e : BridgeEvent) (b : Bridge) : Handled :=
  match e with
  | Called image now writeOk =>
      Done (snd (classifyLetterFromBase64 image now writeOk b))
  | LineRead line parsed => lineHandler line parsed b
  | StderrRead message => Done (stderrHandler message b)
  | Exited code signal => Done (exitHandler code signal b)
  | TimerRan timer now => Done (timerHandler timer now b)
  | Stopped => Done (stopClassifier b)
  end.

(** [bridgeReaches b b']: some events, none of them ending in an uncaught
    exception, lead from [b] to [b']. *)
Inductive bridgeReaches (b : Bridge) : Bridge -> Prop :=
  | reaches_here : bridgeReaches b b
  | reaches_step e b1 b2 :
      bridgeReaches b b1 -> bridgeStep e b1 = Done b2 -> bridgeReaches b b2.

(** The event loop on a list of events: an exception that nobody catches
    ends the process, and no later event is handled. *)
Fixpoint bridgeRun (events : list BridgeEvent) (b : Bridge) : Handled :=
  match events with
  | [] => Done b
  | e :: later =>
      match bridgeStep e b with
      | Done b' => bridgeRun later b'
      | Uncaught b' => Uncaught b'
      end
  end.

(** ** server.js: the route that classifies a frame *)

(** The body of a request to [/api/classify-letter]. *)
Record ClassifyBody : Type := mkClassifyBody {
  bodyImage : JsValue;
  bodyFrameSession : option jsstring
}.

(** The object of lines 150-161. *)
Record ClassifyReply : Type := mkClassifyReply {
  replyLetter : JsValue;
  replyConfidence : JsValue;
  replyAccumulatedText : jsstring;
  replyLetters : list jsstring;
  replySessionId : jsstring;
  replyAccepted : bool;
  replyAcceptedLetter : option jsstring;
  replyReason : option Reason;
  replyStabilityProgress : option nat;
  replyStabilityRequired : option Z
}.

Inductive ClassifyResponse : Type :=
  | FrameClassified (reply : ClassifyReply)
  | NoImage
  | ClassifyFailed (error : ErrorValue).

(** The route runs in two synchronous parts, split at the [await] of line
    143: the first one hands the frame to the bridge, the second one runs
    when the promise of the bridge has settled. *)
Inductive ClassifyStarted : Type :=
  | FrameResponded (response : ClassifyResponse)
  | FrameAwaiting (promise : nat) (sessionId : jsstring).

Inductive Settled : Type :=
  | Fulfilled (letter confidence : JsValue)
  | RejectedWith (error : ErrorValue).

(** [req.body] is [None] when no parser has filled it in: the destructuring
    of line 135 then throws inside the [try]. *)
Definition classifyRoute_start (body : option ClassifyBody) (now : Z)
    (writeOk : bool) (b : Bridge) : ClassifyStarted * Bridge :=
  match body with
  | None =>
      (FrameResponded
         (ClassifyFailed
            (ErrorMessage
               (str "Cannot destructure property 'image' of 'req.body' as it is undefined."))),
       b)
  | Some body =>
      match bodyImage body with
      | Some image =>
          if truthy (Some image) then
            match classifyLetterFromBase64 image now writeOk b with
            | (Thrown error, b') =>
                (FrameResponded (ClassifyFailed error), b')
            | (Returned promise, b') =>
                (FrameAwaiting promise
                   (default (str "default") (bodyFrameSession body)), b')
            end
          else (FrameResponded NoImage, b)
      | None => (FrameResponded NoImage, b)
      end
  end.

(** [x || null] on the fields of the reply: an empty string and a zero are
    falsy. *)
Definition stringOrNull (x : option jsstring) : option jsstring :=
  match x with
  | Some [] => None
  | _ => x
  end.

Definition natOrNull (x : option nat) : option nat :=
  match x with
  | Some O => None
  | _ => x
  end.

Definition intOrNull (x : option Z) : option Z :=
  match x with
  | Some 0 => None
  | _ => x
  end.

Section ClassifyRoute.

Variable STABILITY_COUNT : Z.

(** [ToNumber] on strings, arrays and objects, which is the runtime's. *)
Variable toNumberOther : Json -> float.

(** The conversion the test [confidence < MIN_CONFIDENCE] of line 62
    applies to its left operand. *)
Definition toNumber (v : JsValue) : float :=
  match v with
  | None => nan
  | Some JNull => 0
  | Some (JBool true) => 1
  | Some (JBool false) => 0
  | Some (JNum f) => f
  | Some other => toNumberOther other
  end.

Definition classifyRoute_resume (sessionId : jsstring) (now now' : Z)
    (settled : Settled) (sessions : gmap jsstring Session)
    : ClassifyResponse * gmap jsstring Session :=
  match settled with
  | RejectedWith error => (ClassifyFailed error, sessions)
  | Fulfilled letter confidence =>
      let out :=
        accumulateLetter STABILITY_COUNT now now' letter
          (toNumber confidence) sessionId sessions in
      let accumulation := fst out in
      (FrameClassified
         (mkClassifyReply letter confidence
            (accumulatedText accumulation) (r_letters accumulation)
            (r_sessionId accumulation) (accepted accumulation)
            (stringOrNull (acceptedLetter accumulation))
            (reason accumulation)
            (natOrNull (stabilityProgress accumulation))
            (intOrNull (stabilityRequired accumulation))),
       snd out)
  end.

End ClassifyRoute.

(** * Part 2: the vocabulary of the properties *)

(** ** Frames and runs *)

Section Frames.

Variable STABILITY_COUNT : Z.

(** One frame of a capture: what the classifier answered and the two clock
    readings of the call that accumulates it. *)
Record Frame : Type := mkFrame {
  frameLetter : JsValue;
  frameConfidence : float;
  frameNow : Z;
  frameNow' : Z
}.

(** The frames of one session fed in order; every call is listed with its
    return value and the store it leaves. *)
Fixpoint feed (sessionId : jsstring) (frames : list Frame)
    (sessions : gmap jsstring Session)
    : list (Accumulation * gmap jsstring Session) :=
  match frames with
  | [] => []
  | f :: frames' =>
      let out :=
        accumulateLetter STABILITY_COUNT (frameNow f) (frameNow' f)
          (frameLetter f) (frameConfidence f) sessionId sessions in
      out :: feed sessionId frames' (snd out)
  end.

(** The same function seen from the session it works on: [accumulateOn] is
    the body of [accumulateLetter] after line 58, as a function of the
    session object alone; [accumulateLetter_on] below shows that
    [accumulateLetter] is [accumulateOn] on the session of the store. *)
Definition accumulateOn (now' : Z) (letter : JsValue) (confidence : float)
    (sessionId : jsstring) (session : Session) : Accumulation * Session :=
  if (confidence <? MIN_CONFIDENCE)%float then
    (rejected sessionId session low_confidence None None, session)
  else
    match normalizeLetter letter with
    | None => (rejected sessionId session invalid_letter None None, session)
    | Some c =>
        let recent :=
          pushRecent STABILITY_COUNT (recentPredictions session) c in
        let session :=
          mkSession (letters session) recent (updatedAt session) in
        if Z.of_nat (length recent) <? STABILITY_COUNT then
          (rejected sessionId session insufficient_stability
             (Some (length recent)) (Some STABILITY_COUNT), session)
        else if negb (forallb (fun p => bool_decide (p = c)) recent) then
          (rejected sessionId session unstable None None, session)
        else
          let session :=
            if bool_decide (last (letters session) ≠ Some c) then
              mkSession (letters session ++ [c]) [] now'
            else session in
          (mkAccumulation sessionId (letters session)
             (join (letters session)) true None (Some c) None None,
           session)
    end.

(** [feed], seen from the session. *)
Fixpoint feedOn (sessionId : jsstring) (frames : list Frame)
    (session : Session) : list (Accumulation * Session) :=
  match frames with
  | [] => []
  | f :: frames' =>
      let out :=
        accumulateOn (frameNow' f) (frameLetter f) (frameConfidence f)
          sessionId session in
      out :: feedOn sessionId frames' (snd out)
  end.

End Frames.

(** The result of [accumulateOn] put back into the store. *)
Definition inStore (sessionId : jsstring) (sessions : gmap jsstring Session)
    (out : Accumulation * Session) : Accumulation * gmap jsstring Session :=
  (fst out, <[sessionId := snd out]> sessions).

(** What a caller sees of one call: the verdict, the reason, the committed
    letter, the accumulated text, and the recent window the call leaves in
    the store. *)
Definition observe (sessionId : jsstring)
    (out : Accumulation * gmap jsstring Session)
    : bool * option Reason * option jsstring * jsstring
      * option (list jsstring) :=
  (accepted (fst out), reason (fst out), acceptedLetter (fst out),
   accumulatedText (fst out),
   recentPredictions <$> (snd out !! sessionId)).

Definition scenario (clock : nat -> Z * Z) : list Frame :=
  imap (fun i '(l, c) =>
          mkFrame (Some (JStr l)) c (fst (clock i)) (snd (clock i)))
    [(str "H", 0.9); (str "H", 0.9); (str "H", 0.9); (str "E", 0.6);
     (str "E", 0.92); (str "E", 0.92); (str "E", 0.92)]%float.

(** The letters and the recent window of a session of the store; a session
    that does not exist yet has none. *)
Definition lettersOf (sessions : gmap jsstring Session)
    (sessionId : jsstring) : list jsstring :=
  from_option letters [] (sessions !! sessionId).

Definition windowOf (sessions : gmap jsstring Session)
    (sessionId : jsstring) : list jsstring :=
  from_option recentPredictions [] (sessions !! sessionId).

(** The verdict of a call and the letters it leaves in the session. *)
Definition glance (sessionId : jsstring)
    (out : Accumulation * gmap jsstring Session) : bool * list jsstring :=
  (accepted (fst out), lettersOf (snd out) sessionId).

(** A frame that passes both gates, its label normalising to [c]. *)
Definition carries (c : jsstring) (f : Frame) : Prop :=
  (frameConfidence f <? MIN_CONFIDENCE)%float = false /\
  normalizeLetter (frameLetter f) = Some c.

(** The return value of the commit and of the duplicate confirmation. *)
Definition acceptedWith (sessionId : jsstring) (s : Session) (c : jsstring)
    : Accumulation :=
  mkAccumulation sessionId (letters s) (join (letters s)) true None (Some c)
    None None.

Section Windows.

Variable STABILITY_COUNT : Z.
Variable c : jsstring.

(** The recent window of a session is no longer than the threshold. *)
Definition windowBounded (s : Session) : Prop :=
  Z.of_nat (length (recentPredictions s)) <= STABILITY_COUNT.

Definition windowsBounded (sessions : gmap jsstring Session) : Prop :=
  forall (sessionId : jsstring) (s : Session),
    sessions !! sessionId = Some s -> windowBounded s.

(** The window while a run of [c] builds up: some older entries that do not
    end in [c], then the [k] entries of the run. *)
Definition building (k : nat) (w : list jsstring) : Prop :=
  exists pre, w = pre ++ replicate k c /\ last pre <> Some c /\
              Z.of_nat (length w) <= STABILITY_COUNT.

(** The duplicate confirmation: the window left by the push is full and
    uniform, and its label is the last committed letter. *)
Definition confirmed (s : Session) : Prop :=
  STABILITY_COUNT <= Z.of_nat (length (recentPredictions s)) /\
  forallb (fun p => bool_decide (p = c)) (recentPredictions s) = true /\
  last (letters s) = Some c.

End Windows.

(** The frames fed in order append [c] to the letters of the session once,
    on the last call, and every earlier call is a rejection that leaves the
    letters as they were. *)
Definition appendedOnLast (STABILITY_COUNT : Z) (sessionId c : jsstring)
    (frames : list Frame) (sessions : gmap jsstring Session) : Prop :=
  exists early final,
    feed STABILITY_COUNT sessionId frames sessions = early ++ [final] /\
    Forall (fun out => accepted (fst out) = false /\
                       lettersOf (snd out) sessionId
                       = lettersOf sessions sessionId) early /\
    accepted (fst final) = true /\
    acceptedLetter (fst final) = Some c /\
    lettersOf (snd final) sessionId = lettersOf sessions sessionId ++ [c].

(** The frame "H" with confidence 0.9, and the call that accumulates it in
    the session [default]. *)
Definition frameH : Frame := mkFrame (Some (JStr (str "H"))) 0.9%float 0 0.

Definition accumulatedH : ServerEvent :=
  Accumulated 0 0 (Some (JStr (str "H"))) 0.9%float (str "default").

Definition accumulatedE : ServerEvent :=
  Accumulated 0 0 (Some (JStr (str "E"))) 0.92%float (str "default").

(** The store after three such frames (H is committed, the window empty),
    and after two of them (the window holds H twice). *)
Definition storeAfterHHH : gmap jsstring Session :=
  serverRun 3 [accumulatedH; accumulatedH; accumulatedH] ∅.

Definition storeAfterHH : gmap jsstring Session :=
  serverRun 3 [accumulatedH; accumulatedH] ∅.

(** The store in which H is committed and the window holds H twice again. *)
Definition storeAfterHHHHH : gmap jsstring Session :=
  serverRun 3 [accumulatedH; accumulatedH] storeAfterHHH.

Definition sendDefault : SendBody := mkSendBody (Some (str "default")) None.

(** The hand-off would be atomic if nothing that runs between its two parts
    could change the letters of the session it has read. *)
Definition handoffAtomic (STABILITY_COUNT : Z) : Prop :=
  forall (body : SendBody) (sessions : gmap jsstring Session)
         (sessionId sanitized prompt : jsstring) (events : list ServerEvent),
    reachable STABILITY_COUNT sessions ->
    sendToGemini_start body sessions = Awaiting sessionId sanitized prompt ->
    lettersOf (serverRun STABILITY_COUNT events sessions) sessionId
    = lettersOf sessions sessionId.

(** ** The bound on the window, as the specification states it *)

(** The claim for whatever threshold is configured: [parsed] is what
    [parseInt] makes of the environment variable. *)
Definition windowNeverExceeds : Prop :=
  forall (parsed : option Z) (sessions : gmap jsstring Session)
         (sessionId : jsstring) (s : Session),
    reachable (stabilityCount parsed) sessions ->
    sessions !! sessionId = Some s ->
    Z.of_nat (length (recentPredictions s)) <= stabilityCount parsed.

(** The call commits the label [c]: the window left by the push is full and
    uniform, and [c] is not the last committed letter. *)
Definition commits (STABILITY_COUNT : Z) (c : jsstring)
    (pushed : list jsstring) (s : Session) : bool :=
  negb (Z.of_nat (length pushed) <? STABILITY_COUNT)
  && forallb (fun p => bool_decide (p = c)) pushed
  && bool_decide (last (letters s) ≠ Some c).

(** The window a call leaves when the push has made it [pushed]: the commit
    empties it, everything else leaves it as pushed. *)
Definition windowAfter (STABILITY_COUNT : Z) (c : jsstring)
    (pushed : list jsstring) (s : Session) : list jsstring :=
  if commits STABILITY_COUNT c pushed s then [] else pushed.

(** The frame "A" with confidence 0.9 for the session [default], and the
    store after the frames H, H, A: the window is full and not uniform. *)
Definition accumulatedA : ServerEvent :=
  Accumulated 0 0 (Some (JStr (str "A"))) 0.9%float (str "default").

Definition storeAfterHHA : gmap jsstring Session :=
  serverRun 3 [accumulatedH; accumulatedH; accumulatedA] ∅.

(** The store after one frame H when [STABILITY_COUNT=-2] is configured. *)
Definition storeBelowZero : gmap jsstring Session :=
  serverRun (-2) [accumulatedH] ∅.

(** ** The bridge *)

(** What the loop of lines 274-277 does for one entry. *)
Definition sweepOne (b : Bridge) (kv : jsstring * PendingEntry) : Bridge :=
  emit (Rejected (pendingPromise (snd kv)) workerExited)
    (clearTimeout (pendingTimeout (snd kv)) b).

Definition sweepEffects (kv : jsstring * PendingEntry) : list Effect :=
  [TimerCleared (pendingTimeout (snd kv));
   Rejected (pendingPromise (snd kv)) workerExited].

(** The request message of a call. *)
Definition requestMessage (now : Z) (counter : N) (image : Json) : Json :=
  JObj [(str "id", JStr (requestIdFor now counter)); (str "image", image)].

(** The request [id] is pending with its promise, and its timer is armed. *)
Definition armed (id : jsstring) (promise timer : nat) (due : Z)
    (b : Bridge) : Prop :=
  mapGet id (pendingRequests b) = Some (mkPending promise timer) /\
  timers b !! timer = Some (mkTimer id promise due).

(** Every pending request owns an armed timer that carries its id and its
    promise, and the armed timers are among those handed out so far. *)
Definition armedIn (pending : list (jsstring * PendingEntry))
    (tm : gmap nat Timer) : Prop :=
  forall id e,
    mapGet id pending = Some e ->
    exists due,
      tm !! pendingTimeout e = Some (mkTimer id (pendingPromise e) due).

Definition timersKnown (b : Bridge) : Prop :=
  forall t x, timers b !! t = Some x -> (t < nextTimer b)%nat.

Definition bridgeInv (b : Bridge) : Prop :=
  timersKnown b /\ armedIn (pendingRequests b) (timers b).

(** From [b] to [b'] no armed timer changes and no old timer is armed
    again. *)
Definition timersKept (b b' : Bridge) : Prop :=
  (nextTimer b <= nextTimer b')%nat /\
  forall t x, (t < nextTimer b)%nat ->
              timers b' !! t = Some x -> timers b !! t = Some x.

(** The promises an effect list rejects, with their errors. *)
Definition rejections (es : list Effect) : list (nat * ErrorValue) :=
  omap (fun e => match e with
                 | Rejected promise error => Some (promise, error)
                 | _ => None
                 end) es.

Definition someImage : Json := JStr (str "data:image/jpeg;base64,AAAA").

(** Three calls in a row on a fresh module, none of them answered. *)
Definition bridgeWithThreePending : Bridge :=
  snd (classifyLetterFromBase64 someImage 1002 true
         (snd (classifyLetterFromBase64 someImage 1001 true
                 (snd (classifyLetterFromBase64 someImage 1000 true
                         initialBridge))))).

(** The bridge after one call on a fresh module at time 1000. *)
Definition bridgeAfterCall : Bridge :=
  snd (classifyLetterFromBase64 someImage 1000 true initialBridge).

(** ** Labels and texts *)

(** A capital letter of the target alphabet, as a one-unit string. *)
Definition isCapital (u : N) : bool := ((65 <=? u) && (u <=? 90))%N.

(** A string that starts with no white space (or is empty). *)
Definition headTrimmed (s : jsstring) : Prop :=
  match s with
  | [] => True
  | c :: _ => isWhiteSpace c = false
  end.

(** A string that is one capital letter. *)
Definition oneCapital (c : jsstring) : Prop :=
  exists u, c = [u] /\ isCapital u = true.

(** The letters of a session are capitals, one code unit each, and no two
    neighbours are the same letter. *)
Fixpoint noRepeat (l : list jsstring) : Prop :=
  match l with
  | a :: (b :: _) as l' => a <> b /\ noRepeat l'
  | _ => True
  end.

Definition lettersWellFormed (s : Session) : Prop :=
  Forall oneCapital (letters s) /\ noRepeat (letters s) /\
  Forall oneCapital (recentPredictions s).

(** The label a frame brings to the window, if it passes both gates. *)
Definition gateLabel (f : Frame) : option jsstring :=
  if (frameConfidence f <? MIN_CONFIDENCE)%float then None
  else normalizeLetter (frameLetter f).

Definition labelsOf (frames : list Frame) : list jsstring :=
  omap gateLabel frames.

(** [n] equal labels in a row somewhere in the list. *)
Definition hasRun (n : nat) (labels : list jsstring) : Prop :=
  exists c before after, labels = before ++ replicate n c ++ after.

(** The frame "E" with confidence 0.92. *)
Definition frameE : Frame := mkFrame (Some (JStr (str "E"))) 0.92%float 0 0.

(** ** Requests, promises and the worker *)

(** A decimal digit. *)
Definition isDigit (u : N) : Prop := (48 <= u <= 57)%N.


(** The promises an effect list settles, in order. *)
Definition settledPromises (es : list Effect) : list nat :=
  omap (fun e => match e with
                 | Resolved promise _ _ | Rejected promise _ => Some promise
                 | _ => None
                 end) es.

(** The promises of the pending requests, in the order of the map. *)
Definition pendingPromises (pending : list (jsstring * PendingEntry))
    : list nat :=
  List.map (fun kv => pendingPromise (snd kv)) pending.

(** An id that a call has made with a counter up to [counter]. *)
Definition issued (counter : N) (id : jsstring) : Prop :=
  exists now k, id = requestIdFor now k /\ (k <= counter)%N.

(** Every armed timer belongs to a request that has been made. *)
Definition timersIssued (b : Bridge) : Prop :=
  forall t x,
    timers b !! t = Some x -> issued (requestCounter b) (timerRequest x).

(** The entry a timer finds under its request id is the one its own call
    has put there. *)
Definition timersOwn (b : Bridge) : Prop :=
  forall t x e,
    timers b !! t = Some x ->
    mapGet (timerRequest x) (pendingRequests b) = Some e ->
    e = mkPending (timerPromise x) t.

Definition keysDistinct (b : Bridge) : Prop :=
  NoDup (List.map fst (pendingRequests b)).

(** Every promise handed out so far is settled or pending, and none is
    both or twice either. *)
Definition promisesAccounted (b : Bridge) : Prop :=
  settledPromises (effects b) ++ pendingPromises (pendingRequests b)
  ≡ₚ seq 0 (nextPromise b).

(** The process handle and the read-line interface are held together, and
    a held process has not been killed. *)
Definition workerHeld (b : Bridge) : Prop :=
  match pythonProcess b with
  | Some p =>
      killed p = false /\ stdoutInterface b = Some (pid p) /\
      (pid p < nextProcess b)%nat
  | None => stdoutInterface b = None
  end.

Definition ledgerInv (b : Bridge) : Prop :=
  timersIssued b /\ timersOwn b /\ keysDistinct b /\ promisesAccounted b.

Definition bridgeWF (b : Bridge) : Prop :=
  bridgeInv b /\ workerHeld b /\ ledgerInv b.

(** No timer is armed in [b'] that was not armed in [b]. *)
Definition timersWithin (b b' : Bridge) : Prop :=
  forall t x, timers b' !! t = Some x -> timers b !! t = Some x.

(** What one event does to the requests: nothing, settle one of them,
    settle all of them, register a new one, or refuse a new one. *)
Inductive Move (b b' : Bridge) : Prop :=
  | move_quiet :
      requestCounter b' = requestCounter b ->
      nextPromise b' = nextPromise b ->
      timersWithin b b' ->
      pendingRequests b' = pendingRequests b ->
      settledPromises (effects b') = settledPromises (effects b) ->
      Move b b'
  | move_settle (id : jsstring) (e : PendingEntry) :
      requestCounter b' = requestCounter b ->
      nextPromise b' = nextPromise b ->
      timersWithin b b' ->
      mapGet id (pendingRequests b) = Some e ->
      pendingRequests b' = mapDelete id (pendingRequests b) ->
      settledPromises (effects b')
      = settledPromises (effects b) ++ [pendingPromise e] ->
      Move b b'
  | move_sweep :
      requestCounter b' = requestCounter b ->
      nextPromise b' = nextPromise b ->
      timersWithin b b' ->
      pendingRequests b' = [] ->
      settledPromises (effects b')
      = settledPromises (effects b) ++ pendingPromises (pendingRequests b) ->
      Move b b'
  | move_register (now : Z) :
      let id := requestIdFor now (requestCounter b + 1) in
      requestCounter b' = (requestCounter b + 1)%N ->
      nextPromise b' = S (nextPromise b) ->
      timers b'
      = <[nextTimer b := mkTimer id (nextPromise b) (now + REQUEST_TIMEOUT_MS)]>
          (timers b) ->
      pendingRequests b'
      = mapSet id (mkPending (nextPromise b) (nextTimer b))
          (pendingRequests b) ->
      settledPromises (effects b') = settledPromises (effects b) ->
      Move b b'
  | move_refuse (now : Z) :
      let id := requestIdFor now (requestCounter b + 1) in
      requestCounter b' = (requestCounter b + 1)%N ->
      nextPromise b' = S (nextPromise b) ->
      timersWithin b b' ->
      pendingRequests b'
      = mapDelete id
          (mapSet id (mkPending (nextPromise b) (nextTimer b))
             (pendingRequests b)) ->
      settledPromises (effects b')
      = settledPromises (effects b) ++ [nextPromise b] ->
      Move b b'.

(** ** A low threshold *)

(** The recent window holds one label at most. *)
Definition windowShort (s : Session) : Prop :=
  (length (recentPredictions s) <= 1)%nat.

(** ** A request that is left waiting *)





(** * Part 3: the properties *)

(** ** Properties of the stability filter *)

(** *** Labels *)

Example normalizeLetter_examples :
  normalizeLetter (Some (JStr (str " h "))) = Some (str "H") /\
  normalizeLetter (Some (JStr [305%N])) = Some (str "I") /\
  normalizeLetter (Some (JStr (str "del"))) = None /\
  normalizeLetter (Some (JStr (str "7"))) = None /\
  normalizeLetter (Some (JStr [])) = None /\
  normalizeLetter (Some (JNum 7)) = None /\
  normalizeLetter None = None.
Proof. repeat split. Qed.

Example stabilityCount_examples :
  stabilityCount None = 3 /\ stabilityCount (Some 0) = 3 /\
  stabilityCount (Some 5) = 5.
Proof. repeat split. Qed.

(** *** Comparing confidences *)

Lemma SFcompare_flip (x y : spec_float) :
  SFcompare y x = option_map CompOpp (SFcompare x y).
Proof.
  destruct x as [sx | sx | | sx mx ex], y as [sy | sy | | sy my ey]; simpl;
    try reflexivity; try (destruct sx; reflexivity);
    try (destruct sy; reflexivity); try (destruct sx, sy; reflexivity).
  destruct sx, sy; simpl; try reflexivity; f_equal;
    rewrite (Z.compare_antisym ex ey); destruct (ex ?= ey)%Z; simpl;
    try reflexivity;
    rewrite (Pos.compare_cont_antisym mx my Eq); simpl;
    rewrite ?CompOpp_involutive; reflexivity.
Qed.

(** A confidence at or above the minimum passes the test of line 62. *)
Lemma at_or_above_not_below (confidence : float) :
  (MIN_CONFIDENCE <=? confidence)%float = true ->
  (confidence <? MIN_CONFIDENCE)%float = false.
Proof.
  rewrite leb_spec, ltb_spec. unfold SFleb, SFltb.
  rewrite (SFcompare_flip (Prim2SF MIN_CONFIDENCE) (Prim2SF confidence)).
  destruct (SFcompare (Prim2SF MIN_CONFIDENCE) (Prim2SF confidence))
    as [[]|]; simpl; congruence.
Qed.

Section AccumulateFacts.

Variable STABILITY_COUNT : Z.

(** C3: a confidence strictly below [MIN_CONFIDENCE] is rejected as
    [low_confidence] whatever the label is; a session that exists is left
    exactly as it was (window, letters and timestamp) and so is the whole
    store, and a session created by this very call is still the empty one. *)
Theorem low_confidence_rejected :
  forall (now now' : Z) (letter : JsValue) (confidence : float)
         (sessionId : jsstring) (sessions : gmap jsstring Session),
    (confidence <? MIN_CONFIDENCE)%float = true ->
    let session := sessionOf sessions sessionId now in
    let '(result, sessions') :=
      accumulateLetter STABILITY_COUNT now now' letter confidence sessionId
        sessions in
    accepted result = false /\
    reason result = Some low_confidence /\
    acceptedLetter result = None /\
    r_letters result = letters session /\
    accumulatedText result = join (letters session) /\
    sessions' !! sessionId = Some session /\
    (forall other, other <> sessionId ->
       sessions' !! other = sessions !! other) /\
    (is_Some (sessions !! sessionId) -> sessions' = sessions).
Proof.
  intros now now' letter confidence sessionId sessions Hlow session.
  unfold accumulateLetter. rewrite Hlow. fold session.
  repeat split.
  - apply lookup_insert_eq.
  - intros other Hne. by rewrite lookup_insert_ne.
  - intros [s Hs]. apply insert_id.
    subst session. unfold sessionOf. by rewrite Hs.
Qed.

End AccumulateFacts.

Lemma low_confidence_rejected_witness :
  (0.6 <? MIN_CONFIDENCE)%float = true /\
  reason (fst (accumulateLetter 3 0 0 (Some (JStr (str "E"))) 0.6%float
                 (str "default") ∅)) = Some low_confidence.
Proof.
  split; [reflexivity |].
  pose proof (low_confidence_rejected 3 0 0 (Some (JStr (str "E"))) 0.6%float
                (str "default") ∅ eq_refl) as H.
  cbv zeta in H.
  destruct (accumulateLetter 3 0 0 (Some (JStr (str "E"))) 0.6%float
              (str "default") ∅) as [r m].
  apply H.
Defined.

Section SessionView.

Variable STABILITY_COUNT : Z.

Lemma accumulateLetter_on (now now' : Z) (letter : JsValue)
    (confidence : float) (sessionId : jsstring)
    (sessions : gmap jsstring Session) :
  accumulateLetter STABILITY_COUNT now now' letter confidence sessionId
    sessions
  = inStore sessionId sessions
      (accumulateOn STABILITY_COUNT now' letter confidence sessionId
         (sessionOf sessions sessionId now)).
Proof.
  unfold accumulateLetter, accumulateOn, inStore.
  destruct (confidence <? MIN_CONFIDENCE)%float; [done |].
  destruct (normalizeLetter letter) as [c |]; [| done].
  cbv zeta.
  destruct (Z.of_nat _ <? STABILITY_COUNT); simpl.
  { by rewrite insert_insert_eq. }
  destruct (negb _); simpl.
  { by rewrite insert_insert_eq. }
  by rewrite !insert_insert_eq.
Qed.

Lemma sessionOf_insert (sessionId : jsstring) (s : Session) (now : Z)
    (sessions : gmap jsstring Session) :
  sessionOf (<[sessionId := s]> sessions) sessionId now = s.
Proof. unfold sessionOf. by rewrite lookup_insert_eq. Qed.

Lemma feed_on (sessionId : jsstring) (frames : list Frame) :
  forall (sessions : gmap jsstring Session) (s : Session),
    (forall f, head frames = Some f ->
               sessionOf sessions sessionId (frameNow f) = s) ->
    feed STABILITY_COUNT sessionId frames sessions
    = List.map (inStore sessionId sessions)
        (feedOn STABILITY_COUNT sessionId frames s).
Proof.
  induction frames as [| f frames IH]; intros sessions s Hs; [done |].
  simpl. rewrite accumulateLetter_on, (Hs f eq_refl). f_equal.
  set (out := accumulateOn _ _ _ _ _ s).
  rewrite (IH _ (snd out)).
  - apply map_ext. intros [r s']. unfold inStore. simpl.
    by rewrite insert_insert_eq.
  - intros f' _. apply sessionOf_insert.
Qed.

End SessionView.

(** *** The scenario of the specification *)

(** C1: on a session that does not exist yet, with threshold 3 and minimum
    confidence 0.7, the seven frames H H H E(0.6) E E E give: two rejections
    for insufficient stability, the commit of H, a low-confidence rejection
    that leaves the (empty) window alone, two more rejections for
    insufficient stability, and the commit of E with text HE. *)
Theorem scenario_H_H_H_E_E_E_E :
  forall (sessionId : jsstring) (sessions : gmap jsstring Session)
         (clock : nat -> Z * Z),
    sessions !! sessionId = None ->
    List.map (observe sessionId)
      (feed (stabilityCount None) sessionId (scenario clock) sessions)
    = [ (false, Some insufficient_stability, None, str "", Some [str "H"]);
        (false, Some insufficient_stability, None, str "",
         Some [str "H"; str "H"]);
        (true, None, Some (str "H"), str "H", Some []);
        (false, Some low_confidence, None, str "H", Some []);
        (false, Some insufficient_stability, None, str "H", Some [str "E"]);
        (false, Some insufficient_stability, None, str "H",
         Some [str "E"; str "E"]);
        (true, None, Some (str "E"), str "HE", Some []) ].
Proof.
  intros sessionId sessions clock Hfresh.
  rewrite (feed_on _ _ _ _ (newSession (fst (clock 0%nat)))).
  2: { intros f [= <-]. unfold sessionOf. by rewrite Hfresh. }
  rewrite map_map.
  erewrite map_ext.
  2: { intros out. unfold observe, inStore. simpl.
       rewrite lookup_insert_eq. simpl. reflexivity. }
  vm_compute. reflexivity.
Qed.

Lemma scenario_H_H_H_E_E_E_E_witness :
  List.map (fun out => (accepted (fst out), accumulatedText (fst out)))
    (feed 3 (str "default") (scenario (fun _ => (0, 0))) ∅)
  = [ (false, str ""); (false, str ""); (true, str "H"); (false, str "H");
      (false, str "H"); (false, str "H"); (true, str "HE") ].
Proof.
  pose proof (scenario_H_H_H_E_E_E_E (str "default") ∅ (fun _ => (0, 0))
                (lookup_empty _)) as H.
  apply (f_equal (List.map (fun o => (fst (fst (fst (fst o))), snd (fst o)))))
    in H.
  rewrite map_map in H. exact H.
Defined.

(** *** The bound on the recent window *)

Section WindowBound.

Variable STABILITY_COUNT : Z.

Lemma tail_length {A : Type} (l : list A) :
  length (tail l) = Nat.pred (length l).
Proof. by destruct l. Qed.

Lemma pushRecent_length (w : list jsstring) (c : jsstring) :
  Z.of_nat (length w) <= STABILITY_COUNT ->
  Z.of_nat (length (pushRecent STABILITY_COUNT w c)) <= STABILITY_COUNT.
Proof.
  intros Hw. unfold pushRecent. cbv zeta.
  destruct (Z.gtb_spec (Z.of_nat (length (w ++ [c]))) STABILITY_COUNT)
    as [Hgt | Hle]; [| exact Hle].
  rewrite tail_length, length_app. simpl. lia.
Qed.

(** With a full window the push evicts the oldest entry. *)
Lemma pushRecent_full (w : list jsstring) (c : jsstring) :
  Z.of_nat (length w) = STABILITY_COUNT ->
  pushRecent STABILITY_COUNT w c = tail (w ++ [c]).
Proof.
  intros Hw. unfold pushRecent. cbv zeta.
  destruct (Z.gtb_spec (Z.of_nat (length (w ++ [c]))) STABILITY_COUNT)
    as [Hgt | Hle]; [done |].
  rewrite length_app in Hle. simpl in Hle. lia.
Qed.

(** Below the threshold the push only appends. *)
Lemma pushRecent_room (w : list jsstring) (c : jsstring) :
  Z.of_nat (length w) < STABILITY_COUNT ->
  pushRecent STABILITY_COUNT w c = w ++ [c].
Proof.
  intros Hw. unfold pushRecent. cbv zeta.
  destruct (Z.gtb_spec (Z.of_nat (length (w ++ [c]))) STABILITY_COUNT)
    as [Hgt | Hle]; [| done].
  rewrite length_app in Hgt. simpl in Hgt. lia.
Qed.

(** The three things [accumulateLetter] can do to the window. *)
Lemma accumulateOn_window (now' : Z) (letter : JsValue) (confidence : float)
    (sessionId : jsstring) (s : Session) :
  let s' :=
    snd (accumulateOn STABILITY_COUNT now' letter confidence sessionId s) in
  recentPredictions s' = recentPredictions s \/
  recentPredictions s' = [] \/
  exists c, normalizeLetter letter = Some c /\
            (confidence <? MIN_CONFIDENCE)%float = false /\
            recentPredictions s'
            = pushRecent STABILITY_COUNT (recentPredictions s) c.
Proof.
  unfold accumulateOn.
  destruct (confidence <? MIN_CONFIDENCE)%float eqn:Hc; [by left |].
  destruct (normalizeLetter letter) as [c |]; [| by left].
  cbv zeta.
  destruct (Z.of_nat _ <? STABILITY_COUNT); simpl; [right; right; eauto |].
  destruct (negb _); simpl; [right; right; eauto |].
  case_bool_decide; simpl; [by right; left | right; right; eauto].
Qed.

Lemma accumulateOn_bounded (now' : Z) (letter : JsValue) (confidence : float)
    (sessionId : jsstring) (s : Session) :
  windowBounded STABILITY_COUNT s ->
  windowBounded STABILITY_COUNT
    (snd (accumulateOn STABILITY_COUNT now' letter confidence sessionId s)).
Proof.
  intros Hs. unfold windowBounded in *.
  destruct (accumulateOn_window now' letter confidence sessionId s)
    as [-> | [-> | (c & _ & _ & ->)]].
  - exact Hs.
  - simpl. lia.
  - by apply pushRecent_length.
Qed.

Hypothesis threshold_nonneg : 0 <= STABILITY_COUNT.

Lemma sessionOf_bounded (sessions : gmap jsstring Session)
    (sessionId : jsstring) (now : Z) :
  windowsBounded STABILITY_COUNT sessions ->
  windowBounded STABILITY_COUNT (sessionOf sessions sessionId now).
Proof.
  intros Hm. unfold sessionOf.
  destruct (sessions !! sessionId) as [s |] eqn:Hs; [by eapply Hm |].
  unfold windowBounded. simpl. lia.
Qed.

Lemma serverStep_bounded (e : ServerEvent)
    (sessions : gmap jsstring Session) :
  windowsBounded STABILITY_COUNT sessions ->
  windowsBounded STABILITY_COUNT (serverStep STABILITY_COUNT e sessions).
Proof.
  intros Hm sid s. destruct e as [now now' letter conf sid' | sid' | sid' t o];
    simpl.
  - rewrite accumulateLetter_on. unfold inStore. simpl.
    destruct (decide (sid = sid')) as [-> | Hne].
    + rewrite lookup_insert_eq. intros [= <-].
      by apply accumulateOn_bounded, sessionOf_bounded.
    + rewrite lookup_insert_ne by done. apply Hm.
  - unfold clearSession. case_bool_decide; [| apply Hm].
    intros Hs. apply lookup_delete_Some in Hs as [_ Hs]. by eapply Hm.
  - destruct o as [text | msg]; simpl; [| apply Hm].
    case_bool_decide; [| apply Hm].
    intros Hs. apply lookup_delete_Some in Hs as [_ Hs]. by eapply Hm.
Qed.

Lemma reachable_bounded (sessions : gmap jsstring Session) :
  reachable STABILITY_COUNT sessions ->
  windowsBounded STABILITY_COUNT sessions.
Proof.
  induction 1 as [| e sessions _ IH].
  - intros sid s Hs. by rewrite lookup_empty in Hs.
  - by apply serverStep_bounded.
Qed.

End WindowBound.

(** C8: for a stability threshold that is not negative, in every store the
    server can reach and for every input, the sessions that
    [accumulateLetter] leaves all have a recent window no longer than the
    threshold.  A frame that fails a gate leaves the window as it was.  A
    frame that passes both gates is appended when the window has room, and
    appended with the oldest entry evicted when the window is full; the
    window is then emptied exactly when the call commits the letter, and is
    left as pushed otherwise. *)
Theorem recent_window_never_exceeds_threshold :
  forall (STABILITY_COUNT : Z) (sessions : gmap jsstring Session)
         (now now' : Z) (letter : JsValue) (confidence : float)
         (sessionId : jsstring),
    0 <= STABILITY_COUNT ->
    reachable STABILITY_COUNT sessions ->
    let before := sessionOf sessions sessionId now in
    let w := recentPredictions before in
    let sessions' :=
      snd (accumulateLetter STABILITY_COUNT now now' letter confidence
             sessionId sessions) in
    (forall (other : jsstring) (s : Session),
        sessions' !! other = Some s ->
        Z.of_nat (length (recentPredictions s)) <= STABILITY_COUNT) /\
    Z.of_nat (length w) <= STABILITY_COUNT /\
    (exists after,
        sessions' !! sessionId = Some after /\
        Z.of_nat (length (recentPredictions after)) <= STABILITY_COUNT /\
        ((confidence <? MIN_CONFIDENCE)%float = true
         \/ normalizeLetter letter = None ->
         recentPredictions after = w) /\
        (forall c,
            (confidence <? MIN_CONFIDENCE)%float = false ->
            normalizeLetter letter = Some c ->
            (Z.of_nat (length w) < STABILITY_COUNT ->
             recentPredictions after
             = windowAfter STABILITY_COUNT c (w ++ [c]) before) /\
            (Z.of_nat (length w) = STABILITY_COUNT ->
             recentPredictions after
             = windowAfter STABILITY_COUNT c (tail (w ++ [c])) before))).
Proof.
  intros T sessions now now' letter confidence sessionId HT Hreach
    before w sessions'.
  assert (Hbound : windowsBounded T sessions').
  { apply reachable_bounded; [done |].
    apply (reachable_step T
             (Accumulated now now' letter confidence sessionId) _ Hreach). }
  assert (Hw : Z.of_nat (length w) <= T).
  { apply (sessionOf_bounded T HT sessions sessionId now).
    by apply reachable_bounded. }
  split; [exact Hbound |]. split; [exact Hw |].
  subst sessions'. rewrite accumulateLetter_on in *. unfold inStore in *.
  simpl in *. fold before in Hbound |- *.
  eexists. split; [apply lookup_insert_eq |].
  split; [eapply Hbound, lookup_insert_eq |].
  split.
  { unfold accumulateOn. intros [-> | Hnone]; [done |].
    destruct (confidence <? MIN_CONFIDENCE)%float; [done |].
    by rewrite Hnone. }
  intros c Hconf Hc.
  assert (Hleft : forall pushed,
             pushRecent T w c = pushed ->
             recentPredictions
               (snd (accumulateOn T now' letter confidence sessionId before))
             = windowAfter T c pushed before).
  { intros pushed Hpush. unfold accumulateOn, windowAfter, commits.
    rewrite Hconf, Hc. cbv zeta. fold w. rewrite Hpush.
    destruct (Z.of_nat (length pushed) <? T); simpl; [done |].
    destruct (forallb _ pushed); simpl; [| done].
    by case_bool_decide. }
  split.
  - intros Hroom. apply Hleft. by apply pushRecent_room.
  - intros Hfull. apply Hleft. by apply pushRecent_full.
Qed.

Lemma recent_window_never_exceeds_threshold_witness :
  reachable 3 storeAfterHHA /\
  windowOf storeAfterHHA (str "default") = [str "H"; str "H"; str "A"] /\
  exists after,
    snd (accumulateLetter 3 0 0 (Some (JStr (str "E"))) 0.92%float
           (str "default") storeAfterHHA) !! str "default" = Some after /\
    recentPredictions after = [str "H"; str "A"; str "E"].
Proof.
  assert (Hreach : reachable 3 storeAfterHHA).
  { apply (reachable_step 3 accumulatedA), (reachable_step 3 accumulatedH),
      (reachable_step 3 accumulatedH), reachable_start. }
  split; [exact Hreach |]. split; [by vm_compute |].
  destruct (recent_window_never_exceeds_threshold 3 storeAfterHHA 0 0
              (Some (JStr (str "E"))) 0.92%float (str "default")
              ltac:(lia) Hreach)
    as (_ & _ & after & Hafter & _ & _ & Hpush).
  exists after. split; [exact Hafter |].
  destruct (Hpush (str "E") eq_refl eq_refl) as [_ Hfull].
  rewrite Hfull; by vm_compute.
Defined.

(** The claim as it is stated does not hold: [parseInt(...) || 3] hands a
    negative value on, and with [STABILITY_COUNT=-2] the window that the
    first frame leaves, empty as it is, is longer than the threshold. *)
Lemma window_exceeds_negative_threshold :
  stabilityCount (Some (-2)) = -2 /\
  reachable (-2) storeBelowZero /\
  storeBelowZero !! str "default" = Some (mkSession [str "H"] [] 0) /\
  ~ windowNeverExceeds.
Proof.
  assert (Hreach : reachable (-2) storeBelowZero).
  { apply (reachable_step (-2) accumulatedH), reachable_start. }
  assert (Hs : storeBelowZero !! str "default"
               = Some (mkSession [str "H"] [] 0)) by (by vm_compute).
  split; [done |]. split; [exact Hreach |]. split; [exact Hs |].
  intros Hclaim.
  specialize (Hclaim (Some (-2)) storeBelowZero (str "default") _ Hreach Hs).
  simpl in Hclaim. lia.
Qed.

(** *** Runs of one label *)

Section SameLabel.

Variable STABILITY_COUNT : Z.
Variable c : jsstring.

Abbreviation uniform w := (forallb (fun p => bool_decide (p = c)) w).

Lemma uniform_replicate (n : nat) : uniform (replicate n c) = true.
Proof.
  induction n as [| n IH]; [done |]. simpl. by rewrite bool_decide_true.
Qed.

Lemma uniform_is_replicate (w : list jsstring) :
  uniform w = true -> w = replicate (length w) c.
Proof.
  induction w as [| p w IH]; [done |]. simpl.
  intros [Hp Hw]%andb_true_iff. apply bool_decide_eq_true in Hp as ->.
  by rewrite <- IH.
Qed.

Lemma uniform_other (pre w : list jsstring) :
  pre <> [] -> last pre <> Some c -> uniform (pre ++ w) = false.
Proof.
  intros Hpre Hlast.
  destruct (uniform (pre ++ w)) eqn:Hu; [| done]. exfalso.
  apply last_is_Some in Hpre as [x Hx].
  apply Hlast. rewrite Hx. f_equal.
  apply last_Some in Hx as [pre' ->].
  rewrite forallb_app, forallb_app in Hu. simpl in Hu.
  apply andb_true_iff in Hu as [[_ Hu]%andb_true_iff _].
  rewrite andb_true_r in Hu. by apply bool_decide_eq_true in Hu.
Qed.

(** What [accumulateOn] does with a frame that carries [c]. *)
Lemma accumulateOn_carries (f : Frame) (sessionId : jsstring) (s : Session) :
  carries c f ->
  accumulateOn STABILITY_COUNT (frameNow' f) (frameLetter f)
    (frameConfidence f) sessionId s
  = let w := pushRecent STABILITY_COUNT (recentPredictions s) c in
    let s1 := mkSession (letters s) w (updatedAt s) in
    if Z.of_nat (length w) <? STABILITY_COUNT then
      (rejected sessionId s1 insufficient_stability (Some (length w))
         (Some STABILITY_COUNT), s1)
    else if negb (uniform w) then
      (rejected sessionId s1 unstable None None, s1)
    else if bool_decide (last (letters s) ≠ Some c) then
      let s2 := mkSession (letters s ++ [c]) [] (frameNow' f) in
      (acceptedWith sessionId s2 c, s2)
    else (acceptedWith sessionId s1 c, s1).
Proof.
  intros [Hconf Hc]. unfold accumulateOn. rewrite Hconf, Hc. cbv zeta.
  destruct (Z.of_nat _ <? STABILITY_COUNT); [done |].
  destruct (negb _); [done |].
  by destruct (bool_decide _).
Qed.

Lemma building_push (k : nat) (w : list jsstring) :
  building STABILITY_COUNT c k w -> Z.of_nat (S k) <= STABILITY_COUNT ->
  building STABILITY_COUNT c (S k) (pushRecent STABILITY_COUNT w c).
Proof.
  intros (pre & -> & Hlast & Hlen) Hk.
  pose proof (pushRecent_length STABILITY_COUNT _ c Hlen) as Hlen'.
  revert Hlen'. unfold pushRecent. cbv zeta.
  rewrite <- (assoc_L (++)), <- replicate_S_end.
  destruct (Z.gtb_spec (Z.of_nat (length (pre ++ replicate (S k) c)))
              STABILITY_COUNT) as [Hgt | Hle]; intros Hlen'.
  - destruct pre as [| x pre].
    { simpl in Hgt. rewrite length_replicate in Hgt. lia. }
    exists pre. split; [done |]. split; [| done].
    destruct pre as [| y pre]; [done |]. by rewrite last_cons_cons in Hlast.
  - exists pre. by repeat split.
Qed.

(** Before the run is long enough the frame is rejected and the letters
    stay. *)
Lemma building_rejected (k : nat) (f : Frame) (sessionId : jsstring)
    (s : Session) :
  carries c f -> building STABILITY_COUNT c k (recentPredictions s) ->
  Z.of_nat (S k) < STABILITY_COUNT ->
  let out :=
    accumulateOn STABILITY_COUNT (frameNow' f) (frameLetter f)
      (frameConfidence f) sessionId s in
  accepted (fst out) = false /\ acceptedLetter (fst out) = None /\
  r_letters (fst out) = letters s /\ letters (snd out) = letters s /\
  building STABILITY_COUNT c (S k) (recentPredictions (snd out)).
Proof.
  intros Hf Hw Hk out. subst out. rewrite (accumulateOn_carries _ _ _ Hf).
  cbv zeta.
  pose proof (building_push k _ Hw ltac:(lia)) as Hw'.
  destruct (Z.ltb_spec (Z.of_nat (length (pushRecent STABILITY_COUNT
                                            (recentPredictions s) c)))
              STABILITY_COUNT) as [Hshort | Hfull]; [done |].
  pose proof Hw' as (pre & Heq & Hlast & Hlen).
  assert (Hmixed : uniform (pushRecent STABILITY_COUNT
                              (recentPredictions s) c) = false).
  { rewrite Heq. apply uniform_other; [| done].
    intros ->. rewrite Heq in Hfull. simpl in Hfull.
    rewrite length_replicate in Hfull. lia. }
  by rewrite Hmixed.
Qed.

(** The frame that completes the run commits the letter, unless it is the
    last committed one already. *)
Lemma building_committed (k : nat) (f : Frame) (sessionId : jsstring)
    (s : Session) :
  carries c f -> building STABILITY_COUNT c k (recentPredictions s) ->
  Z.of_nat (S k) = STABILITY_COUNT ->
  last (letters s) <> Some c ->
  accumulateOn STABILITY_COUNT (frameNow' f) (frameLetter f)
    (frameConfidence f) sessionId s
  = (let s2 := mkSession (letters s ++ [c]) [] (frameNow' f) in
     (acceptedWith sessionId s2 c, s2)).
Proof.
  intros Hf Hw Hk Hnew. rewrite (accumulateOn_carries _ _ _ Hf). cbv zeta.
  destruct (building_push k _ Hw ltac:(lia)) as (pre & Heq & Hlast & Hlen).
  assert (pre = []) as ->.
  { rewrite Heq, length_app, length_replicate in Hlen.
    destruct pre; [done | simpl in Hlen; lia]. }
  rewrite app_nil_l in Heq.
  rewrite Heq, length_replicate, uniform_replicate.
  destruct (Z.ltb_spec (Z.of_nat (S k)) STABILITY_COUNT); [lia |].
  cbn [negb]. by rewrite bool_decide_true.
Qed.

End SameLabel.

Section Runs.

Variable STABILITY_COUNT : Z.
Variable c : jsstring.
Variable sessionId : jsstring.

(** A run of frames carrying [c] that brings the count to the threshold:
    every frame but the last is rejected and the last one commits. *)
Lemma run_commits_on_last (frames : list Frame) :
  forall (k : nat) (s : Session),
    Forall (carries c) frames -> frames <> [] ->
    building STABILITY_COUNT c k (recentPredictions s) ->
    Z.of_nat (k + length frames) = STABILITY_COUNT ->
    last (letters s) <> Some c ->
    exists early final,
      feedOn STABILITY_COUNT sessionId frames s = early ++ [final] /\
      Forall (fun out => accepted (fst out) = false /\
                         letters (snd out) = letters s) early /\
      fst final = acceptedWith sessionId (snd final) c /\
      letters (snd final) = letters s ++ [c] /\
      recentPredictions (snd final) = [].
Proof.
  induction frames as [| f frames IH]; intros k s Hall Hne Hw Hk Hnew;
    [done |].
  apply Forall_cons in Hall as [Hf Hall].
  destruct frames as [| f2 frames].
  - exists [], (accumulateOn STABILITY_COUNT (frameNow' f) (frameLetter f)
                 (frameConfidence f) sessionId s).
    split; [done |]. split; [constructor |].
    rewrite (building_committed STABILITY_COUNT c k f sessionId s Hf Hw);
      [done | simpl in Hk; lia | done].
  - destruct (building_rejected STABILITY_COUNT c k f sessionId s Hf Hw)
      as (Hrej & _ & _ & Hlet & Hw'); [simpl in Hk; lia |].
    set (out := accumulateOn STABILITY_COUNT (frameNow' f) (frameLetter f)
                  (frameConfidence f) sessionId s) in *.
    destruct (IH (S k) (snd out) Hall ltac:(done) Hw')
      as (early & final & Hfeed & Hearly & Hfinal & Hlet' & Hwin).
    { simpl in *. lia. }
    { by rewrite Hlet. }
    exists (out :: early), final.
    split; [by rewrite <- app_comm_cons, <- Hfeed |].
    split; [| by rewrite <- Hlet].
    constructor; [done |].
    eapply Forall_impl; [exact Hearly |].
    intros o [? ?]. split; [done | congruence].
Qed.

Lemma confirmed_push (s : Session) :
  0 < STABILITY_COUNT -> confirmed STABILITY_COUNT c s ->
  pushRecent STABILITY_COUNT (recentPredictions s) c = recentPredictions s.
Proof.
  intros HT (Hlen & Hu & _). unfold pushRecent. cbv zeta.
  apply uniform_is_replicate in Hu. revert Hlen Hu.
  generalize (length (recentPredictions s)) as n.
  generalize (recentPredictions s) as w. intros w n Hlen ->.
  rewrite <- replicate_S_end, length_replicate.
  by destruct (Z.gtb_spec (Z.of_nat (S n)) STABILITY_COUNT); [| lia].
Qed.

(** In that state a frame carrying [c] is accepted and changes nothing. *)
Lemma confirmed_stays (f : Frame) (s : Session) :
  0 < STABILITY_COUNT -> carries c f -> confirmed STABILITY_COUNT c s ->
  accumulateOn STABILITY_COUNT (frameNow' f) (frameLetter f)
    (frameConfidence f) sessionId s
  = (acceptedWith sessionId s c, s).
Proof.
  intros HT Hf Hs. rewrite (accumulateOn_carries _ _ _ _ _ Hf). cbv zeta.
  rewrite (confirmed_push s HT Hs).
  destruct Hs as (Hlen & Hu & Hlast).
  destruct (Z.ltb_spec (Z.of_nat (length (recentPredictions s)))
              STABILITY_COUNT); [lia |].
  rewrite Hu. cbn [negb]. rewrite bool_decide_false by (by intros []).
  by destruct s.
Qed.

(** A frame carrying [c] that is accepted without a new letter has gone
    through the duplicate confirmation, and leaves that state. *)
Lemma accepted_unchanged_confirmed (f : Frame) (s : Session) :
  carries c f ->
  let out :=
    accumulateOn STABILITY_COUNT (frameNow' f) (frameLetter f)
      (frameConfidence f) sessionId s in
  accepted (fst out) = true -> r_letters (fst out) = letters s ->
  confirmed STABILITY_COUNT c (snd out) /\
  fst out = acceptedWith sessionId s c /\
  letters (snd out) = letters s.
Proof.
  intros Hf out. subst out. rewrite (accumulateOn_carries _ _ _ _ _ Hf).
  cbv zeta.
  destruct (Z.ltb_spec (Z.of_nat (length (pushRecent STABILITY_COUNT
                                            (recentPredictions s) c)))
              STABILITY_COUNT) as [Hshort | Hfull]; [done |].
  destruct (forallb _ _) eqn:Hu; [| done]. cbn [negb].
  case_bool_decide as Hlast; simpl.
  - intros _ Heq. apply (f_equal length) in Heq.
    rewrite length_app in Heq. simpl in Heq. lia.
  - intros _ _. split; [| done]. unfold confirmed. simpl.
    split; [done |]. split; [done |].
    destruct (decide (last (letters s) = Some c)); [done |]. by destruct Hlast.
Qed.

End Runs.

(** *** One symbol per run *)

Lemma lettersOf_sessionOf (sessions : gmap jsstring Session)
    (sessionId : jsstring) (now : Z) :
  letters (sessionOf sessions sessionId now) = lettersOf sessions sessionId.
Proof.
  unfold sessionOf, lettersOf. by destruct (sessions !! sessionId).
Qed.

Lemma windowOf_sessionOf (sessions : gmap jsstring Session)
    (sessionId : jsstring) (now : Z) :
  recentPredictions (sessionOf sessions sessionId now)
  = windowOf sessions sessionId.
Proof.
  unfold sessionOf, windowOf. by destruct (sessions !! sessionId).
Qed.

Lemma lettersOf_insert (sessions : gmap jsstring Session)
    (sessionId : jsstring) (s : Session) :
  lettersOf (<[sessionId := s]> sessions) sessionId = letters s.
Proof. unfold lettersOf. by rewrite lookup_insert_eq. Qed.

(** C2 (amended): in a session whose recent window does not end in the
    label and whose last committed letter is not the label, feeding the same
    valid label as many times as the threshold says appends it exactly once,
    on the last feed and not earlier; and whenever the window left by the
    push is full and uniform and its label is the last committed letter, the
    call is accepted and appends nothing. *)
Theorem same_label_commits_once_on_last :
  forall (STABILITY_COUNT : Z) (sessions : gmap jsstring Session)
         (sessionId c : jsstring),
    0 < STABILITY_COUNT ->
    reachable STABILITY_COUNT sessions ->
    (forall frames : list Frame,
        Forall (carries c) frames ->
        Z.of_nat (length frames) = STABILITY_COUNT ->
        last (windowOf sessions sessionId) <> Some c ->
        last (lettersOf sessions sessionId) <> Some c ->
        appendedOnLast STABILITY_COUNT sessionId c frames sessions) /\
    (forall f : Frame,
        carries c f ->
        let w := pushRecent STABILITY_COUNT (windowOf sessions sessionId) c in
        STABILITY_COUNT <= Z.of_nat (length w) ->
        forallb (fun p => bool_decide (p = c)) w = true ->
        last (lettersOf sessions sessionId) = Some c ->
        let out :=
          accumulateLetter STABILITY_COUNT (frameNow f) (frameNow' f)
            (frameLetter f) (frameConfidence f) sessionId sessions in
        accepted (fst out) = true /\
        acceptedLetter (fst out) = Some c /\
        r_letters (fst out) = lettersOf sessions sessionId /\
        lettersOf (snd out) sessionId = lettersOf sessions sessionId).
Proof.
  intros T sessions sessionId c HT Hreach. split.
  - intros frames Hall Hlen Hwin Hlet.
    destruct frames as [| f frames]; [simpl in Hlen; lia |].
    set (s := sessionOf sessions sessionId (frameNow f)).
    destruct (run_commits_on_last T c sessionId (f :: frames) 0 s)
      as (early & final & Hfeed & Hearly & Hfinal & Hlet' & _);
      [done | done | | done | |].
    { exists (recentPredictions s). rewrite app_nil_r.
      split; [done |]. subst s. split; [by rewrite windowOf_sessionOf |].
      apply sessionOf_bounded; [lia |].
      by apply reachable_bounded; [lia |]. }
    { subst s. by rewrite lettersOf_sessionOf. }
    exists (List.map (inStore sessionId sessions) early),
           (inStore sessionId sessions final).
    split.
    { rewrite (feed_on T sessionId (f :: frames) sessions s), Hfeed.
      - by rewrite map_app.
      - by intros f' [= <-]. }
    subst s. rewrite lettersOf_sessionOf in Hearly, Hlet'.
    split.
    { apply Forall_map. eapply Forall_impl; [exact Hearly |].
      intros [r s'] [? ?]. simpl. by rewrite lettersOf_insert. }
    unfold inStore. simpl. rewrite lettersOf_insert, Hfinal.
    by repeat split.
  - intros f Hf w Hfull Hu Hlast out. subst out w.
    rewrite accumulateLetter_on. unfold inStore. simpl.
    rewrite lettersOf_insert.
    rewrite (accumulateOn_carries _ _ _ _ _ Hf). cbv zeta.
    rewrite windowOf_sessionOf, lettersOf_sessionOf, Hu.
    destruct (Z.ltb_spec
                (Z.of_nat (length (pushRecent T (windowOf sessions sessionId)
                                     c))) T); [lia |].
    cbn [negb]. rewrite bool_decide_false by (by intros []).
    by simpl.
Qed.

Lemma at_or_above_carries (c : jsstring) (f : Frame) :
  (MIN_CONFIDENCE <=? frameConfidence f)%float = true ->
  normalizeLetter (frameLetter f) = Some c ->
  carries c f.
Proof. intros Hconf Hc. split; [by apply at_or_above_not_below | done]. Qed.

Lemma serverRun_reachable (STABILITY_COUNT : Z) (events : list ServerEvent) :
  forall sessions : gmap jsstring Session,
    reachable STABILITY_COUNT sessions ->
    reachable STABILITY_COUNT (serverRun STABILITY_COUNT events sessions).
Proof.
  induction events as [| e events IH]; intros sessions Hreach; [done |].
  simpl. apply IH. by constructor.
Qed.

Lemma same_label_commits_once_on_last_witness :
  appendedOnLast 3 (str "default") (str "H") [frameH; frameH; frameH] ∅.
Proof.
  apply (same_label_commits_once_on_last 3 ∅ (str "default") (str "H")).
  - lia.
  - apply reachable_start.
  - repeat constructor.
  - reflexivity.
  - discriminate.
  - discriminate.
Defined.

Lemma appendedOnLast_glance (STABILITY_COUNT : Z) (sessionId c : jsstring)
    (frames : list Frame) (sessions : gmap jsstring Session) :
  appendedOnLast STABILITY_COUNT sessionId c frames sessions ->
  exists early,
    List.map (glance sessionId)
      (feed STABILITY_COUNT sessionId frames sessions)
    = early ++ [(true, lettersOf sessions sessionId ++ [c])] /\
    Forall (fun g => fst g = false) early.
Proof.
  intros (early & final & Heq & Hearly & Hacc & _ & Hlet).
  exists (List.map (glance sessionId) early). split.
  - rewrite Heq, map_app. simpl. unfold glance at 2. by rewrite Hacc, Hlet.
  - apply Forall_map. eapply Forall_impl; [exact Hearly |]. by intros o [? _].
Qed.

(** C2 as it is stated, for every session, fails in both stores: after the
    commit of H three more frames of H append nothing, and with H twice in
    the window the first of three frames commits already. *)
Lemma same_label_run_counterexample :
  (reachable 3 storeAfterHHH /\
   ~ appendedOnLast 3 (str "default") (str "H") [frameH; frameH; frameH]
       storeAfterHHH) /\
  (reachable 3 storeAfterHH /\
   ~ appendedOnLast 3 (str "default") (str "H") [frameH; frameH; frameH]
       storeAfterHH).
Proof.
  split; (split; [apply serverRun_reachable, reachable_start |]);
    intros (early & Heq & Hearly)%appendedOnLast_glance.
  - assert (Hrun : List.map (glance (str "default"))
                     (feed 3 (str "default") [frameH; frameH; frameH]
                        storeAfterHHH)
                   = [(false, [str "H"]); (false, [str "H"]);
                      (true, [str "H"])]) by (vm_compute; reflexivity).
    rewrite Hrun in Heq.
    assert (Hlet : lettersOf storeAfterHHH (str "default") = [str "H"])
      by (vm_compute; reflexivity).
    rewrite Hlet in Heq.
    destruct early as [| e1 [| e2 [| e3 early]]]; try discriminate Heq.
    destruct early; discriminate Heq.
  - assert (Hrun : List.map (glance (str "default"))
                     (feed 3 (str "default") [frameH; frameH; frameH]
                        storeAfterHH)
                   = [(true, [str "H"]); (false, [str "H"]);
                      (false, [str "H"])]) by (vm_compute; reflexivity).
    rewrite Hrun in Heq.
    assert (Hlet : lettersOf storeAfterHH (str "default") = [])
      by (vm_compute; reflexivity).
    rewrite Hlet in Heq.
    destruct early as [| e1 early]; [discriminate Heq |].
    apply Forall_cons in Hearly as [He1 _].
    injection Heq as <- _. discriminate He1.
Qed.

(** *** Duplicate confirmations *)

Lemma confirmed_feed (STABILITY_COUNT : Z) (c sessionId : jsstring)
    (s : Session) (frames : list Frame) :
  0 < STABILITY_COUNT -> confirmed STABILITY_COUNT c s ->
  Forall (carries c) frames ->
  Forall (fun out => out = (acceptedWith sessionId s c, s))
    (feedOn STABILITY_COUNT sessionId frames s).
Proof.
  intros HT Hs. induction 1 as [| f frames Hf _ IH]; [constructor |].
  simpl. rewrite (confirmed_stays STABILITY_COUNT c sessionId f s HT Hf Hs).
  by constructor.
Qed.

(** C9: a call that goes through the duplicate confirmation (it is accepted
    and appends nothing) leaves the recent window full, not empty; so every
    following frame that carries the same label returns what that call
    returned, accepted with the letter set and the same accumulated text,
    and leaves the store as that call left it. *)
Theorem duplicate_confirmation_repeats :
  forall (STABILITY_COUNT : Z) (sessions : gmap jsstring Session)
         (sessionId c : jsstring) (f0 : Frame) (frames : list Frame),
    0 < STABILITY_COUNT ->
    carries c f0 ->
    Forall (carries c) frames ->
    let out0 :=
      accumulateLetter STABILITY_COUNT (frameNow f0) (frameNow' f0)
        (frameLetter f0) (frameConfidence f0) sessionId sessions in
    accepted (fst out0) = true ->
    r_letters (fst out0) = lettersOf sessions sessionId ->
    (acceptedLetter (fst out0) = Some c /\
     accumulatedText (fst out0) = join (lettersOf sessions sessionId)) /\
    (exists s,
        snd out0 !! sessionId = Some s /\
        recentPredictions s <> [] /\
        confirmed STABILITY_COUNT c s) /\
    Forall (fun out => out = out0)
      (feed STABILITY_COUNT sessionId frames (snd out0)).
Proof.
  intros T sessions sessionId c f0 frames HT Hf0 Hframes out0.
  subst out0. rewrite accumulateLetter_on. unfold inStore. simpl.
  set (s0 := sessionOf sessions sessionId (frameNow f0)).
  rewrite <- (lettersOf_sessionOf sessions sessionId (frameNow f0)).
  fold s0. intros Hacc Hlet.
  destruct (accepted_unchanged_confirmed T c sessionId f0 s0 Hf0 Hacc Hlet)
    as (Hconf & Hout & Hsame).
  set (out := accumulateOn T (frameNow' f0) (frameLetter f0)
                (frameConfidence f0) sessionId s0) in *.
  split; [by rewrite Hout |].
  split.
  { exists (snd out). split; [apply lookup_insert_eq |]. split; [| done].
    destruct Hconf as [Hlen _]. intros Hnil. rewrite Hnil in Hlen.
    simpl in Hlen. lia. }
  destruct frames as [| f frames]; [constructor |].
  rewrite (feed_on T sessionId (f :: frames) _ (snd out))
    by (intros ? _; apply sessionOf_insert).
  apply Forall_map.
  eapply Forall_impl;
    [exact (confirmed_feed T c sessionId (snd out) _ HT Hconf Hframes) |].
  intros o ->. unfold inStore. simpl. rewrite insert_insert_eq.
  f_equal. rewrite Hout. unfold acceptedWith. by rewrite Hsame.
Qed.

Lemma duplicate_confirmation_repeats_witness :
  Forall
    (fun out =>
       out = accumulateLetter 3 0 0 (Some (JStr (str "H"))) 0.9%float
               (str "default") storeAfterHHHHH)
    (feed 3 (str "default") [frameH; frameH]
       (snd (accumulateLetter 3 0 0 (Some (JStr (str "H"))) 0.9%float
               (str "default") storeAfterHHHHH))).
Proof.
  apply (duplicate_confirmation_repeats 3 storeAfterHHHHH (str "default")
           (str "H") frameH [frameH; frameH]).
  - lia.
  - split; reflexivity.
  - repeat constructor.
  - vm_compute. reflexivity.
  - vm_compute. reflexivity.
Defined.

(** ** Properties of the bridge *)

Section MapFacts.

Context {V : Type}.

Lemma mapGet_cons (k k' : jsstring) (v : V) (m : list (jsstring * V)) :
  mapGet k ((k', v) :: m) = if bool_decide (k' = k) then Some v else mapGet k m.
Proof. unfold mapGet. simpl. by case_bool_decide. Qed.

Lemma mapGet_app_None (k : jsstring) (m m' : list (jsstring * V)) :
  mapGet k m = None -> mapGet k (m ++ m') = mapGet k m'.
Proof.
  induction m as [| [k' v] m IH]; [done |]. simpl.
  rewrite !mapGet_cons. case_bool_decide; [done | exact IH].
Qed.

Lemma mapGet_mapSet (k : jsstring) (v : V) (m : list (jsstring * V)) :
  mapGet k (mapSet k v m) = Some v.
Proof.
  unfold mapSet, mapHas. case_bool_decide as Hhas.
  - induction m as [| [k' v'] m IH]; [by destruct Hhas |].
    simpl. rewrite mapGet_cons in Hhas. case_bool_decide as Hk; simpl.
    + rewrite mapGet_cons. by rewrite bool_decide_true.
    + rewrite mapGet_cons. rewrite bool_decide_false by done. by apply IH.
  - rewrite mapGet_app_None.
    + rewrite mapGet_cons. by rewrite bool_decide_true.
    + destruct (mapGet k m) eqn:Hget; [| done]. destruct Hhas. by eexists.
Qed.

Lemma mapGet_mapDelete (k : jsstring) (m : list (jsstring * V)) :
  mapGet k (mapDelete k m) = None.
Proof.
  induction m as [| [k' v] m IH]; [done |]. unfold mapDelete in *. simpl.
  case_bool_decide; simpl; [done |].
  rewrite mapGet_cons. by rewrite bool_decide_false.
Qed.

Lemma mapGet_mapDelete_ne (k k' : jsstring) (m : list (jsstring * V)) :
  k <> k' -> mapGet k' (mapDelete k m) = mapGet k' m.
Proof.
  intros Hne. induction m as [| [k0 v] m IH]; [done |].
  unfold mapDelete in *. simpl. case_bool_decide as Hk0; simpl.
  - subst k0. rewrite mapGet_cons. by rewrite bool_decide_false.
  - rewrite !mapGet_cons. by case_bool_decide.
Qed.

Lemma mapGet_elem (k : jsstring) (v : V) (m : list (jsstring * V)) :
  mapGet k m = Some v -> (k, v) ∈ m.
Proof.
  induction m as [| [k' v'] m IH]; [done |]. rewrite mapGet_cons.
  case_bool_decide as Hk.
  - intros [= ->]. subst k'. by left.
  - intros Hget. right. by apply IH.
Qed.

End MapFacts.

(** What the guard of lines 237-243 does catch.  A line that [JSON.parse]
    rejects never reaches the pending requests: the handler ends normally,
    the map of pending requests, the timers and the process handle are what
    they were, nothing is resolved or rejected, and the only effect is the
    log entry (a line of white space alone is skipped before any parsing
    and leaves no entry). *)
Lemma malformed_line_discarded :
  forall (line : jsstring) (b : Bridge),
    exists b',
      lineHandler line None b = Done b' /\
      pendingRequests b' = pendingRequests b /\
      timers b' = timers b /\
      pythonProcess b' = pythonProcess b /\
      stdoutInterface b' = stdoutInterface b /\
      effects b'
      = effects b
        ++ (if bool_decide (trim line = []) then []
            else [Logged (ParseFailure line)]).
Proof.
  intros line b. unfold lineHandler.
  destruct (trim line) as [| u rest] eqn:Hline.
  - exists b. rewrite bool_decide_true by done. by rewrite app_nil_r.
  - eexists. split; [reflexivity |]. by rewrite bool_decide_false.
Qed.

(** A line that holds the JSON literal [null] parses; the destructuring of
    line 245 then throws outside the [try], and nothing has been changed. *)
Remark null_line_uncaught (line : jsstring) (b : Bridge) :
  trim line <> [] -> lineHandler line (Some JNull) b = Uncaught b.
Proof. unfold lineHandler. by destruct (trim line). Qed.

(** C7: the line [null] is no structured message, and it is neither logged
    nor discarded.  [JSON.parse] accepts it, so the [try] of lines 237-243
    is left without a log entry, and the destructuring of line 245 throws
    where nothing catches: the handler ends in an uncaught exception,
    whatever the state of the bridge, and the event loop handles no later
    event, so that no request that is pending then is ever settled.  The
    lines beside it show what the handler does otherwise: a line that
    [JSON.parse] rejects is logged and dropped, and a line that parses to a
    value without an id ([5], [{}]) is dropped without a log entry. *)
Theorem null_line_escapes_the_guard :
  forall (b : Bridge) (later : list BridgeEvent),
    lineHandler (str "null") (Some JNull) b = Uncaught b /\
    bridgeRun (LineRead (str "null") (Some JNull) :: later) b = Uncaught b /\
    lineHandler (str "oops") None b
    = Done (emit (Logged (ParseFailure (str "oops"))) b) /\
    lineHandler (str "5") (Some (JNum 5)) b = Done b /\
    lineHandler (str "{}") (Some (JObj [])) b = Done b.
Proof.
  intros b later.
  assert (Hnull : lineHandler (str "null") (Some JNull) b = Uncaught b)
    by (by apply null_line_uncaught).
  split; [exact Hnull |].
  split; [cbn [bridgeRun bridgeStep]; by rewrite Hnull |].
  repeat split.
Qed.

(** With three requests pending, the line [null] settles none of them and
    the response that follows it for the first one is never handled. *)
Example null_line_with_three_pending :
  bridgeRun
    [LineRead (str "null") (Some JNull);
     LineRead (str "{}")
       (Some (JObj [(str "id", JStr (requestIdFor 1000 1));
                    (str "letter", JStr (str "H"));
                    (str "confidence", JNum 0.9%float)]))]
    bridgeWithThreePending
  = Uncaught bridgeWithThreePending /\
  List.map fst (pendingRequests bridgeWithThreePending)
  = [requestIdFor 1000 1; requestIdFor 1001 2; requestIdFor 1002 3].
Proof. split; by vm_compute. Qed.

(** *** The sweep at the exit of the worker *)

Lemma sweep_spec (entries : list (jsstring * PendingEntry)) :
  forall b : Bridge,
    let b' := fold_left sweepOne entries b in
    pythonProcess b' = pythonProcess b /\
    stdoutInterface b' = stdoutInterface b /\
    requestCounter b' = requestCounter b /\
    pendingRequests b' = pendingRequests b /\
    nextTimer b' = nextTimer b /\
    nextPromise b' = nextPromise b /\
    nextProcess b' = nextProcess b /\
    effects b' = effects b ++ flat_map sweepEffects entries /\
    (forall kv,
        kv ∈ entries -> timers b' !! pendingTimeout (snd kv) = None) /\
    (forall t, timers b' !! t = None \/ timers b' !! t = timers b !! t).
Proof.
  induction entries as [| kv entries IH]; intros b; simpl.
  - rewrite app_nil_r. repeat split; try done.
    + intros kv Hkv. by apply elem_of_nil in Hkv.
    + intros t. by right.
  - destruct (IH (sweepOne b kv))
      as (Hp & Hi & Hc & Hpend & Hnt & Hnp & Hnpr & He & Ht & Hmono).
    repeat split; try (by etrans; [eassumption |]).
    + rewrite He. simpl. rewrite <- !(assoc_L (++)). done.
    + intros kv' [-> | Hin]%elem_of_cons; [| by apply Ht].
      destruct (Hmono (pendingTimeout (snd kv))) as [Hnone | Hsame];
        [done |].
      rewrite Hsame. simpl. apply lookup_delete_eq.
    + intros t. destruct (Hmono t) as [Hnone | Hsame]; [by left |].
      rewrite Hsame. simpl.
      destruct (decide (t = pendingTimeout (snd kv))) as [-> | Hne].
      * left. apply lookup_delete_eq.
      * right. by apply lookup_delete_ne.
Qed.

Lemma cleanupWorker_spec (b : Bridge) :
  let b' := cleanupWorker b in
  pythonProcess b' = None /\ stdoutInterface b' = None /\
  requestCounter b' = requestCounter b /\
  pendingRequests b' = pendingRequests b /\ timers b' = timers b /\
  nextTimer b' = nextTimer b /\ nextPromise b' = nextPromise b /\
  nextProcess b' = nextProcess b /\
  exists closing,
    effects b' = effects b ++ closing /\
    Forall (fun e => match e with
                     | InterfaceClosed _ | StdinEnded _ | Killed _ => True
                     | _ => False
                     end) closing.
Proof.
  unfold cleanupWorker. destruct b as [proc iface n pend tm nt np npr eff].
  destruct iface as [i |], proc as [[p k] |]; simpl; try destruct k; simpl;
    repeat split; try done;
    rewrite <- ?(assoc_L (++));
    first [ by exists []; rewrite app_nil_r
          | eexists; (split; [reflexivity |]); repeat constructor ].
Qed.

(** Without a process, [classifyLetterFromBase64] spawns one and goes on
    with it. *)
Lemma classify_starts_worker (image : Json) (now : Z) (writeOk : bool)
    (b : Bridge) :
  pythonProcess b = None ->
  let counter := (requestCounter b + 1)%N in
  let entry := mkPending (nextPromise b) (nextTimer b) in
  let out := classifyLetterFromBase64 image now writeOk b in
  fst out = Returned (nextPromise b) /\
  pythonProcess (snd out) = Some (mkProcess (nextProcess b) false) /\
  effects (snd out)
  = effects b ++ Spawned (nextProcess b)
      :: (if writeOk then
            [Written (nextProcess b) (requestMessage now counter image)]
          else [TimerCleared (nextTimer b);
                Rejected (nextPromise b) WriteError]) /\
  pendingRequests (snd out)
  = (if writeOk then
       mapSet (requestIdFor now counter) entry (pendingRequests b)
     else
       mapDelete (requestIdFor now counter)
         (mapSet (requestIdFor now counter) entry (pendingRequests b))).
Proof.
  destruct b as [proc iface n pend tm nt np npr eff]. simpl.
  intros ->. unfold classifyLetterFromBase64, ensureWorker, startWorker.
  simpl. destruct writeOk; simpl; rewrite <- ?(assoc_L (++)); done.
Qed.

(** C5: when the worker exits, with whatever code or signal, every request
    still pending is rejected with the error of the worker's exit and its
    timer cleared, the map of pending requests is emptied and the process
    handle is cleared; the next call to [classifyLetterFromBase64] does not
    throw: it spawns a fresh process, returns a promise, and (when the write
    goes through) sends its request to the new process and registers it. *)
Theorem worker_exit_rejects_pending_and_restarts :
  forall (code signal : JsValue) (b : Bridge),
    let b' := exitHandler code signal b in
    pythonProcess b' = None /\
    stdoutInterface b' = None /\
    pendingRequests b' = [] /\
    (exists closing,
        effects b'
        = effects b ++ [Logged (WorkerExited code signal)] ++ closing
          ++ flat_map sweepEffects (pendingRequests b) /\
        Forall (fun e => match e with
                         | InterfaceClosed _ | StdinEnded _ | Killed _ => True
                         | _ => False
                         end) closing) /\
    (forall id entry,
        (id, entry) ∈ pendingRequests b ->
        Rejected (pendingPromise entry) workerExited ∈ effects b' /\
        timers b' !! pendingTimeout entry = None) /\
    (forall (image : Json) (now : Z) (writeOk : bool),
        let out := classifyLetterFromBase64 image now writeOk b' in
        let counter := (requestCounter b + 1)%N in
        fst out = Returned (nextPromise b) /\
        pythonProcess (snd out) = Some (mkProcess (nextProcess b) false) /\
        Spawned (nextProcess b) ∈ effects (snd out) /\
        (writeOk = true ->
         Written (nextProcess b) (requestMessage now counter image)
           ∈ effects (snd out) /\
         mapGet (requestIdFor now counter) (pendingRequests (snd out))
         = Some (mkPending (nextPromise b) (nextTimer b)))).
Proof.
  intros code signal b b'.
  set (b1 := emit (Logged (WorkerExited code signal)) b).
  destruct (cleanupWorker_spec b1)
    as (Hproc & Hiface & Hcount & Hpend & Htimers & Hnt & Hnp & Hnpr
        & closing & Heff & Hclosing).
  destruct (sweep_spec (pendingRequests (cleanupWorker b1)) (cleanupWorker b1))
    as (Hproc' & Hiface' & Hcount' & _ & Hnt' & Hnp' & Hnpr' & Heff' & Hcleared
        & _).
  assert (Hb' : b' = setPending []
                       (fold_left sweepOne
                          (pendingRequests (cleanupWorker b1))
                          (cleanupWorker b1))) by done.
  assert (Heffects :
            effects b'
            = effects b ++ [Logged (WorkerExited code signal)] ++ closing
              ++ flat_map sweepEffects (pendingRequests b)).
  { rewrite Hb'. simpl. rewrite Heff', Heff, Hpend. simpl.
    by rewrite <- !(assoc_L (++)). }
  split; [by rewrite Hb'; simpl; rewrite Hproc' |].
  split; [by rewrite Hb'; simpl; rewrite Hiface' |].
  split; [by rewrite Hb' |].
  split; [by exists closing |].
  split.
  - intros id entry Hin. split.
    + rewrite Heffects. apply elem_of_app. right.
      apply elem_of_cons. right. apply elem_of_app. right.
      apply list_elem_of_In, in_flat_map. exists (id, entry).
      split; [by apply list_elem_of_In |]. simpl. by right; left.
    + rewrite Hb'. simpl. apply (Hcleared (id, entry)). by rewrite Hpend.
  - intros image now writeOk out counter.
    destruct (classify_starts_worker image now writeOk b')
      as (Hret & Hnew & Hout & Hpending).
    { by rewrite Hb'; simpl; rewrite Hproc'. }
    assert (nextPromise b' = nextPromise b) as Hp
      by (by rewrite Hb'; simpl; rewrite Hnp', Hnp).
    assert (nextProcess b' = nextProcess b) as Hq
      by (by rewrite Hb'; simpl; rewrite Hnpr', Hnpr).
    assert (nextTimer b' = nextTimer b) as Ht
      by (by rewrite Hb'; simpl; rewrite Hnt', Hnt).
    assert (requestCounter b' = requestCounter b) as Hc
      by (by rewrite Hb'; simpl; rewrite Hcount', Hcount).
    rewrite Hp, Hq, Ht, Hc in *. fold out in Hret, Hnew, Hout, Hpending.
    split; [done |]. split; [done |].
    split.
    { rewrite Hout. apply elem_of_app. right. by left. }
    intros ->. split.
    + rewrite Hout. apply elem_of_app. right. right. by left.
    + rewrite Hpending. apply mapGet_mapSet.
Qed.

(** The scenario of the specification: three requests are pending when the
    worker exits; the three promises are rejected by that one handler, and
    the next call gets a fresh process and a promise of its own. *)
Example three_pending_rejected_at_exit :
  List.map fst (pendingRequests bridgeWithThreePending)
  = [requestIdFor 1000 1; requestIdFor 1001 2; requestIdFor 1002 3] /\
  rejections (effects (exitHandler (Some JNull) (Some (JStr (str "SIGKILL")))
                         bridgeWithThreePending))
  = [(0%nat, workerExited); (1%nat, workerExited); (2%nat, workerExited)] /\
  fst (classifyLetterFromBase64 someImage 2000 true
         (exitHandler (Some JNull) (Some (JStr (str "SIGKILL")))
            bridgeWithThreePending))
  = Returned 3%nat.
Proof. repeat split. Qed.

(** *** Deadlines *)


(** *** The bridge as a state machine *)

Lemma mapGet_mapSet_ne {V : Type} (k k' : jsstring) (v : V)
    (m : list (jsstring * V)) :
  k <> k' -> mapGet k' (mapSet k v m) = mapGet k' m.
Proof.
  intros Hne. unfold mapSet. destruct (mapHas k m).
  - induction m as [| [k0 v0] m IH]; [done |]. simpl.
    case_bool_decide as Hk0; simpl in Hk0.
    + subst k0. rewrite !mapGet_cons, !bool_decide_false by done. exact IH.
    + rewrite !mapGet_cons. by rewrite IH.
  - induction m as [| [k0 v0] m IH]; simpl.
    + rewrite mapGet_cons. by rewrite bool_decide_false.
    + rewrite !mapGet_cons. by rewrite IH.
Qed.

Lemma armedIn_delete (pending pending' : list (jsstring * PendingEntry))
    (tm : gmap nat Timer) (t : nat) (x : Timer) :
  armedIn pending tm -> tm !! t = Some x ->
  (forall id e, mapGet id pending' = Some e ->
                mapGet id pending = Some e /\ id <> timerRequest x) ->
  armedIn pending' (delete t tm).
Proof.
  intros Harmed Ht Hsub id e Hget.
  destruct (Hsub id e Hget) as [Hold Hne].
  destruct (Harmed id e Hold) as [due Hdue]. exists due.
  rewrite lookup_delete_ne; [done |].
  intros ->. rewrite Hdue in Ht. injection Ht as <-. by apply Hne.
Qed.

Lemma armedIn_set (pending : list (jsstring * PendingEntry))
    (tm : gmap nat Timer) (id : jsstring) (promise timer : nat) (due : Z) :
  armedIn pending tm ->
  (forall t x, tm !! t = Some x -> (t < timer)%nat) ->
  armedIn (mapSet id (mkPending promise timer) pending)
    (<[timer := mkTimer id promise due]> tm).
Proof.
  intros Harmed Hknown id' e Hget.
  destruct (decide (id = id')) as [<- | Hne].
  - rewrite mapGet_mapSet in Hget. injection Hget as <-. simpl.
    exists due. apply lookup_insert_eq.
  - rewrite mapGet_mapSet_ne in Hget by done.
    destruct (Harmed id' e Hget) as [due' Hdue]. exists due'.
    rewrite lookup_insert_ne; [done |].
    intros Heq. apply Hknown in Hdue. lia.
Qed.

Lemma armedIn_remove (pending : list (jsstring * PendingEntry))
    (tm : gmap nat Timer) (id : jsstring) (e : PendingEntry) :
  armedIn pending tm -> mapGet id pending = Some e ->
  armedIn (mapDelete id pending) (delete (pendingTimeout e) tm).
Proof.
  intros Harmed Hget. destruct (Harmed id e Hget) as [due Hdue].
  apply (armedIn_delete pending _ tm _ _ Harmed Hdue).
  intros id' e' Hget'. simpl.
  destruct (decide (id = id')) as [<- | Hne].
  - by rewrite mapGet_mapDelete in Hget'.
  - by rewrite mapGet_mapDelete_ne in Hget'.
Qed.

Lemma timersKnown_delete (tm : gmap nat Timer) (t n : nat) :
  (forall t' x, tm !! t' = Some x -> (t' < n)%nat) ->
  forall t' x, delete t tm !! t' = Some x -> (t' < n)%nat.
Proof.
  intros Hknown t' x [_ Hx]%lookup_delete_Some. by eapply Hknown.
Qed.

Lemma lineHandler_inv (line : jsstring) (parsed : option Json)
    (b b' : Bridge) :
  lineHandler line parsed b = Done b' ->
  bridgeInv b -> bridgeInv b' /\ timersKept b b'.
Proof.
  unfold lineHandler. intros Hstep [Hknown Harmed].
  assert (Hsame : bridgeInv b /\ timersKept b b) by (by repeat split).
  destruct (trim line); [by injection Hstep as <- |].
  destruct parsed as [payload |]; [| by injection Hstep as <-].
  assert (Hmatch :
            match field (str "id") payload with
            | Some (JStr id) =>
                match mapGet id (pendingRequests b) with
                | None => Done b
                | Some entry =>
                    let b1 := clearTimeout (pendingTimeout entry) b in
                    let b2 :=
                      setPending (mapDelete id (pendingRequests b1)) b1 in
                    if truthy (field (str "error") payload) then
                      Done (emit (Rejected (pendingPromise entry)
                                    (ErrorOf (default JNull
                                                (field (str "error")
                                                   payload)))) b2)
                    else
                      Done (emit (Resolved (pendingPromise entry)
                                    (field (str "letter") payload)
                                    (field (str "confidence") payload)) b2)
                end
            | _ => Done b
            end = Done b').
  { by destruct payload. }
  clear Hstep.
  destruct (field (str "id") payload) as [[| | | id | |] |];
    try (by injection Hmatch as <-).
  destruct (mapGet id (pendingRequests b)) as [entry |] eqn:Hget;
    [| by injection Hmatch as <-].
  cbv zeta in Hmatch.
  assert (Hinv : armedIn (mapDelete id (pendingRequests b))
                   (delete (pendingTimeout entry) (timers b)))
    by (by apply armedIn_remove).
  assert (Hk : forall t x,
             delete (pendingTimeout entry) (timers b) !! t = Some x ->
             (t < nextTimer b)%nat) by (by apply timersKnown_delete).
  destruct (truthy _); injection Hmatch as <-; simpl;
    (split; [by split |]); (split; [done |]);
    intros t x _ Hx; simpl in Hx;
    by apply lookup_delete_Some in Hx as [_ Hx].
Qed.

Lemma timerHandler_inv (timer : nat) (now : Z) (b : Bridge) :
  bridgeInv b ->
  bridgeInv (timerHandler timer now b) /\
  timersKept b (timerHandler timer now b).
Proof.
  intros [Hknown Harmed]. unfold timerHandler.
  assert (Hsame : bridgeInv b /\ timersKept b b) by (by repeat split).
  destruct (timers b !! timer) as [x |] eqn:Htimer; [| done].
  destruct (timerDue x <=? now); [| done].
  assert (Hk : forall t y, delete timer (timers b) !! t = Some y ->
                           (t < nextTimer b)%nat)
    by (by apply timersKnown_delete).
  assert (Hkept : forall t y, (t < nextTimer b)%nat ->
                              delete timer (timers b) !! t = Some y ->
                              timers b !! t = Some y).
  { by intros t y _ [_ Hy]%lookup_delete_Some. }
  unfold mapHas. simpl. case_bool_decide as Hhas; simpl.
  - split; [| by split]. split; [done |].
    apply (armedIn_delete (pendingRequests b) _ _ _ x Harmed Htimer).
    intros id e Hget. simpl in Hget.
    destruct (decide (timerRequest x = id)) as [<- | Hne].
    + by rewrite mapGet_mapDelete in Hget.
    + rewrite mapGet_mapDelete_ne in Hget by done. by split.
  - split; [| by split]. split; [done |].
    apply (armedIn_delete (pendingRequests b) _ _ _ x Harmed Htimer).
    intros id e Hget. simpl in Hget. split; [done |].
    intros ->. apply Hhas. by eexists.
Qed.

Lemma classify_inv (image : Json) (now : Z) (writeOk : bool) (b : Bridge) :
  bridgeInv b ->
  bridgeInv (snd (classifyLetterFromBase64 image now writeOk b)) /\
  timersKept b (snd (classifyLetterFromBase64 image now writeOk b)).
Proof.
  destruct b as [proc iface n pend tm nt np npr eff].
  intros [Hknown Harmed]. unfold timersKnown in Hknown. simpl in *.
  assert (Hsame : forall proc' iface' n' npr' eff',
             let b' := mkBridge proc' iface' n' pend tm nt np npr' eff' in
             bridgeInv b' /\
             timersKept (mkBridge proc iface n pend tm nt np npr eff) b').
  { intros. by repeat split. }
  assert (Hcall : forall proc' iface' npr' eff' p,
             let id := requestIdFor now (n + 1) in
             let sent :=
               mkBridge proc' iface' (n + 1)
                 (mapSet id (mkPending np nt) pend)
                 (<[nt := mkTimer id np (now + REQUEST_TIMEOUT_MS)]> tm)
                 (S nt) (S np) npr' eff' in
             let b' :=
               if writeOk then emit (Written p (requestMessage now (n + 1)
                                                  image)) sent
               else
                 emit (Rejected np WriteError)
                   (setPending (mapDelete id (pendingRequests
                                                (clearTimeout nt sent)))
                      (clearTimeout nt sent)) in
             bridgeInv b' /\
             timersKept (mkBridge proc iface n pend tm nt np npr eff) b').
  { intros proc' iface' npr' eff' p id sent b'.
    assert (Hset : armedIn (mapSet id (mkPending np nt) pend)
                     (<[nt := mkTimer id np (now + REQUEST_TIMEOUT_MS)]> tm))
      by (by apply armedIn_set).
    assert (Hk : forall t x,
               <[nt := mkTimer id np (now + REQUEST_TIMEOUT_MS)]> tm !! t
               = Some x -> (t < S nt)%nat).
    { intros t x [[<- _] | [_ Hx]]%lookup_insert_Some; [lia |].
      apply Hknown in Hx. lia. }
    subst b' sent. destruct writeOk; simpl.
    - split; [by split |]. split; [simpl; lia |]. simpl.
      intros t x Ht Hx. rewrite lookup_insert_ne in Hx by lia. done.
    - split; [split |].
      + unfold timersKnown. simpl. by apply timersKnown_delete.
      + simpl. apply (armedIn_remove _ _ id (mkPending np nt) Hset).
        apply mapGet_mapSet.
      + split; [simpl; lia |]. simpl.
        intros t x Ht [_ Hx]%lookup_delete_Some.
        rewrite lookup_insert_ne in Hx by lia. done. }
  unfold classifyLetterFromBase64, ensureWorker, startWorker.
  destruct proc as [[p k] |]; simpl.
  - destruct k; simpl; [apply Hsame |].
    specialize (Hcall (Some (mkProcess p false)) iface npr eff p).
    destruct writeOk; exact Hcall.
  - specialize (Hcall (Some (mkProcess npr false)) (Some npr) (S npr)
                  (eff ++ [Spawned npr]) npr).
    destruct writeOk; exact Hcall.
Qed.

Lemma cleanupWorker_inv (b : Bridge) :
  bridgeInv b ->
  bridgeInv (cleanupWorker b) /\ timersKept b (cleanupWorker b).
Proof.
  destruct (cleanupWorker_spec b)
    as (_ & _ & _ & Hpend & Htimers & Hnt & _).
  intros [Hknown Harmed]. unfold bridgeInv, timersKnown, timersKept.
  rewrite Hpend, Htimers, Hnt. by repeat split.
Qed.

Lemma exitHandler_inv (code signal : JsValue) (b : Bridge) :
  bridgeInv b ->
  bridgeInv (exitHandler code signal b) /\
  timersKept b (exitHandler code signal b).
Proof.
  intros Hinv. unfold exitHandler.
  set (b1 := cleanupWorker (emit (Logged (WorkerExited code signal)) b)).
  destruct (cleanupWorker_inv (emit (Logged (WorkerExited code signal)) b))
    as [[Hknown _] [Hnt Hkept]]; [exact Hinv |]. fold b1 in Hknown, Hnt, Hkept.
  destruct (sweep_spec (pendingRequests b1) b1)
    as (_ & _ & _ & _ & Hnt' & _ & _ & _ & _ & Hmono).
  change (fold_left _ (pendingRequests b1) b1)
    with (fold_left sweepOne (pendingRequests b1) b1).
  set (b2 := fold_left sweepOne (pendingRequests b1) b1) in *.
  assert (Hsub : forall t x, timers b2 !! t = Some x ->
                             timers b1 !! t = Some x).
  { intros t x Hx. destruct (Hmono t) as [Hnone | Hsame]; congruence. }
  split; [split |].
  - intros t x Hx. simpl in *. rewrite Hnt'. by eapply Hknown, Hsub.
  - intros id e Hget. done.
  - split; simpl in *; [lia |].
    intros t x Ht Hx. by apply Hkept, Hsub.
Qed.

Lemma bridgeStep_inv (e : BridgeEvent) (b b' : Bridge) :
  bridgeStep e b = Done b' -> bridgeInv b ->
  bridgeInv b' /\ timersKept b b'.
Proof.
  destruct e as [image now ok | line parsed | msg | code signal | timer now |];
    simpl; intros Hstep Hinv.
  - injection Hstep as <-. by apply classify_inv.
  - by eapply lineHandler_inv.
  - injection Hstep as <-. destruct Hinv. by repeat split.
  - injection Hstep as <-. by apply exitHandler_inv.
  - injection Hstep as <-. by apply timerHandler_inv.
  - injection Hstep as <-. by apply cleanupWorker_inv.
Qed.


Lemma initialBridge_inv : bridgeInv initialBridge.
Proof.
  split; intros ? ? H; simpl in H; [by rewrite lookup_empty in H | done].
Qed.


(** ** Properties of the hand-off to sentence formation *)

(** C10: the second part of the handler deletes the session when the remote
    call has answered and leaves the store alone when it has failed; the
    handler as a whole changes the store only when it answers with a
    sentence, and then by deleting that one session. *)
Theorem session_deleted_only_after_success :
  forall (sessionId sanitized : jsstring) (body : SendBody)
         (outcome : GeminiOutcome) (sessions : gmap jsstring Session),
    (forall message,
        sendToGemini_resume sessionId sanitized (Failure message) sessions
        = (ServerError (str "Failed to generate sentence") message,
           sessions)) /\
    (forall text,
        sendToGemini_resume sessionId sanitized (Answer text) sessions
        = (Sentence (trim text) sanitized, delete sessionId sessions)) /\
    (forall message,
        snd (sendToGemini body (Failure message) sessions) = sessions) /\
    (snd (sendToGemini body outcome sessions) <> sessions ->
     exists sentence original deleted,
       outcome = Answer sentence /\
       fst (sendToGemini body outcome sessions)
       = Sentence (trim sentence) original /\
       is_Some (sessions !! deleted) /\
       snd (sendToGemini body outcome sessions) = delete deleted sessions).
Proof.
  intros sessionId sanitized body outcome sessions.
  assert (Hdel : forall sid (m : gmap jsstring Session),
             (if bool_decide (is_Some (m !! sid)) then delete sid m else m)
             = delete sid m).
  { intros sid m. case_bool_decide as Hsome; [done |].
    symmetry. apply delete_id.
    destruct (m !! sid) eqn:Hm; [| done]. destruct Hsome. by eexists. }
  split; [done |].
  split; [intros text; simpl; by rewrite Hdel |].
  split.
  - intros message. unfold sendToGemini.
    by destruct (sendToGemini_start body sessions).
  - unfold sendToGemini.
    destruct (sendToGemini_start body sessions) as [r | sid text prompt];
      [done |].
    destruct outcome as [sentence | message]; [| done]. simpl.
    case_bool_decide as Hsome; [| done].
    intros _. by exists sentence, text, sid.
Qed.

(** C4 (amended): the hand-off is two synchronous steps around the remote
    call.  The first reads the text (for a request without a text of its
    own, the letters of the session joined and trimmed) and changes nothing;
    the second, run after an answer on the store as the steps in between
    have left it, reports the text the first has read and deletes the
    session as a whole, leaving every other session alone. *)
Theorem handoff_reads_then_deletes :
  forall (STABILITY_COUNT : Z) (body : SendBody)
         (sessions : gmap jsstring Session)
         (sessionId sanitized prompt : jsstring)
         (events : list ServerEvent) (text : jsstring),
    sendToGemini_start body sessions = Awaiting sessionId sanitized prompt ->
    let later := serverRun STABILITY_COUNT events sessions in
    let out := sendToGemini_resume sessionId sanitized (Answer text) later in
    sessionId = default (str "default") (bodySessionId body) /\
    prompt = promptFor sanitized /\
    (bodyText body = None ->
     sanitized = trim (join (lettersOf sessions sessionId))) /\
    fst out = Sentence (trim text) sanitized /\
    snd out = delete sessionId later /\
    snd out !! sessionId = None /\
    (forall other, other <> sessionId -> snd out !! other = later !! other).
Proof.
  intros T body sessions sessionId sanitized prompt events text Hstart
    later out.
  assert (Hout : snd out = delete sessionId later).
  { subst out. simpl. case_bool_decide as Hsome; [done |].
    symmetry. apply delete_id.
    destruct (later !! sessionId) eqn:Hl; [| done]. destruct Hsome.
    by eexists. }
  assert (Hread : sessionId = default (str "default") (bodySessionId body) /\
                  prompt = promptFor sanitized /\
                  (bodyText body = None ->
                   sanitized = trim (join (lettersOf sessions sessionId)))).
  { revert Hstart. unfold sendToGemini_start, lettersOf.
    generalize (default (str "default") (bodySessionId body)) as sid.
    intros sid.
    destruct (sessions !! sid) as [s |] eqn:Hs; simpl;
      destruct (bodyText body) as [[| | | t | |] |]; try done;
      try destruct (trim t) as [| u t']; try done;
      try (destruct (join (letters s)) eqn:Hj; [done |]);
      intros [= <- <- <-]; repeat split; try done.
    all: intros _; rewrite ?Hs; simpl; by rewrite ?Hj. }
  destruct Hread as (Hsid & Hprompt & Htext).
  split; [done |]. split; [done |]. split; [done |].
  split; [done |]. split; [done |].
  rewrite Hout. split; [apply lookup_delete_eq |].
  intros other Hne. by apply lookup_delete_ne.
Qed.

Lemma handoff_reads_then_deletes_witness :
  sendToGemini_start sendDefault storeAfterHHH
  = Awaiting (str "default") (str "H") (promptFor (str "H")) /\
  fst (sendToGemini_resume (str "default") (str "H") (Answer (str "Hi."))
         (serverRun 3 [accumulatedE; accumulatedE; accumulatedE]
            storeAfterHHH))
  = Sentence (trim (str "Hi.")) (str "H").
Proof.
  assert (Hstart : sendToGemini_start sendDefault storeAfterHHH
                   = Awaiting (str "default") (str "H") (promptFor (str "H")))
    by (vm_compute; reflexivity).
  split; [exact Hstart |].
  apply (handoff_reads_then_deletes 3 sendDefault storeAfterHHH
           (str "default") (str "H") (promptFor (str "H"))
           [accumulatedE; accumulatedE; accumulatedE] (str "Hi.") Hstart).
Defined.

(** C4 as it is stated fails: while the remote call is pending three frames
    of E commit a letter to the session whose text, H, has been read; the
    second part then deletes the session with the E in it and reports H. *)
Lemma handoff_not_atomic :
  ~ handoffAtomic 3 /\
  sendToGemini_start sendDefault storeAfterHHH
  = Awaiting (str "default") (str "H") (promptFor (str "H")) /\
  lettersOf
    (serverRun 3 [accumulatedE; accumulatedE; accumulatedE] storeAfterHHH)
    (str "default")
  = [str "H"; str "E"] /\
  fst (sendToGemini_resume (str "default") (str "H") (Answer (str "Hi."))
         (serverRun 3 [accumulatedE; accumulatedE; accumulatedE]
            storeAfterHHH))
  = Sentence (str "Hi.") (str "H") /\
  snd (sendToGemini_resume (str "default") (str "H") (Answer (str "Hi."))
         (serverRun 3 [accumulatedE; accumulatedE; accumulatedE]
            storeAfterHHH)) !! str "default"
  = None.
Proof.
  assert (Hstart : sendToGemini_start sendDefault storeAfterHHH
                   = Awaiting (str "default") (str "H") (promptFor (str "H")))
    by (vm_compute; reflexivity).
  assert (Hlater : lettersOf
                     (serverRun 3 [accumulatedE; accumulatedE; accumulatedE]
                        storeAfterHHH) (str "default")
                   = [str "H"; str "E"]) by (vm_compute; reflexivity).
  split.
  { intros Hatomic.
    specialize (Hatomic sendDefault storeAfterHHH _ _ _
                  [accumulatedE; accumulatedE; accumulatedE]
                  (serverRun_reachable 3 _ _ (reachable_start 3)) Hstart).
    rewrite Hlater in Hatomic.
    assert (Hread : lettersOf storeAfterHHH (str "default") = [str "H"])
      by (vm_compute; reflexivity).
    rewrite Hread in Hatomic. discriminate Hatomic. }
  split; [exact Hstart |]. split; [exact Hlater |].
  split; vm_compute; reflexivity.
Qed.

(** ** Further properties of the stability filter *)

(** *** White space and capitals *)

Lemma capital_not_space (u : N) : isCapital u = true -> isWhiteSpace u = false.
Proof.
  unfold isCapital, isWhiteSpace.
  intros [H1 H2]%andb_true_iff.
  apply N.leb_le in H1, H2.
  repeat (apply orb_false_intro);
    first [ apply andb_false_iff; (left; apply N.leb_gt; lia)
                                  || (right; apply N.leb_gt; lia)
          | apply N.eqb_neq; lia ].
Qed.

Lemma capital_upper (u : N) : isCapital u = true -> toUpperCaseUnit u = [u].
Proof.
  unfold isCapital, toUpperCaseUnit.
  intros [H1 H2]%andb_true_iff. apply N.leb_le in H1, H2.
  destruct (N.leb_spec 97 u); [lia |]. simpl.
  destruct (N.eqb_spec u 305); [lia |].
  destruct (N.eqb_spec u 383); [lia |].
  by destruct (N.eqb_spec u 223); [lia |].
Qed.

Lemma trimStart_headTrimmed (s : jsstring) : headTrimmed (trimStart s).
Proof.
  induction s as [| c s IH]; [done |]. simpl.
  by destruct (isWhiteSpace c) eqn:Hc.
Qed.

Lemma trimStart_id (s : jsstring) : headTrimmed s -> trimStart s = s.
Proof. destruct s as [| c s]; [done |]. simpl. by intros ->. Qed.

Lemma trimStart_suffix (s : jsstring) : exists k, s = k ++ trimStart s.
Proof.
  induction s as [| c s [k IH]]; [by exists [] |]. simpl.
  destruct (isWhiteSpace c).
  - exists (c :: k). simpl. by rewrite <- IH.
  - by exists [].
Qed.

Lemma trimStart_keeps_end (s : jsstring) :
  headTrimmed (rev s) -> headTrimmed (rev (trimStart s)).
Proof.
  destruct (trimStart_suffix s) as [k Hk].
  destruct (trimStart s) as [| c t] eqn:Ht; [done |].
  rewrite Hk at 1. rewrite rev_app_distr.
  destruct (rev (c :: t)) as [| d r] eqn:Hr; [| done].
  apply (f_equal (@length N)) in Hr. rewrite length_rev in Hr. done.
Qed.

(** A string without white space at either end is left alone. *)
Lemma trim_id (s : jsstring) :
  headTrimmed s -> headTrimmed (rev s) -> trim s = s.
Proof.
  intros Hhead Hend. unfold trim.
  rewrite (trimStart_id s Hhead), (trimStart_id (rev s) Hend).
  apply rev_involutive.
Qed.

Lemma trim_trimmed (s : jsstring) :
  headTrimmed (trim s) /\ headTrimmed (rev (trim s)).
Proof.
  unfold trim. rewrite rev_involutive. split.
  - apply trimStart_keeps_end. rewrite rev_involutive.
    apply trimStart_headTrimmed.
  - apply trimStart_headTrimmed.
Qed.

Lemma trim_idempotent (s : jsstring) : trim (trim s) = trim s.
Proof. apply trim_id; apply trim_trimmed. Qed.

Lemma trim_capitals (l : list jsstring) :
  Forall oneCapital l -> trim (join l) = join l.
Proof.
  intros Hl.
  assert (Hall : Forall (fun u => isWhiteSpace u = false) (join l)).
  { induction Hl as [| c l (u & -> & Hu) _ IH]; [constructor |].
    simpl. constructor; [by apply capital_not_space | exact IH]. }
  apply trim_id.
  - destruct Hall; [done | by simpl].
  - apply Forall_rev in Hall. destruct Hall; [done | by simpl].
Qed.

Lemma trimStart_spaces (k t : jsstring) :
  Forall (fun u => isWhiteSpace u = true) k -> headTrimmed t ->
  trimStart (k ++ t) = t.
Proof.
  induction 1 as [| u k Hu _ IH]; intros Ht; simpl.
  - by apply trimStart_id.
  - rewrite Hu. by apply IH.
Qed.

(** *** normalizeLetter *)

Lemma normalizeLetter_string (s : jsstring) :
  s <> [] ->
  normalizeLetter (Some (JStr s))
  = (if isSingleCapital (toUpperCase (trim s)) then
       Some (toUpperCase (trim s))
     else None).
Proof. by destruct s. Qed.

Lemma normalizeLetter_oneCapital (letter : JsValue) (c : jsstring) :
  normalizeLetter letter = Some c -> oneCapital c.
Proof.
  unfold normalizeLetter. intros Hc.
  destruct letter as [[| | | s | |] |]; try done.
  destruct s as [| u s]; [done |].
  destruct (toUpperCase (trim (u :: s))) as [| v [| w r]] eqn:Hup;
    try done.
  simpl in Hc. destruct ((65 <=? v)%N && (v <=? 90)%N) eqn:Hv; [| done].
  injection Hc as <-. by exists v.
Qed.

(** X1: whatever [normalizeLetter] accepts comes out as one capital letter
    A-Z, and such a letter is a fixed point: normalising it again gives it
    back. *)
Theorem normalizeLetter_capital :
  forall (letter : JsValue) (c : jsstring),
    normalizeLetter letter = Some c ->
    oneCapital c /\ normalizeLetter (Some (JStr c)) = Some c.
Proof.
  intros letter c Hc.
  pose proof (normalizeLetter_oneCapital letter c Hc) as Hone.
  split; [exact Hone |].
  destruct Hone as (u & -> & Hu). unfold normalizeLetter.
  rewrite trim_id.
  - unfold toUpperCase. simpl. rewrite (capital_upper u Hu). simpl.
    unfold isCapital in Hu. by rewrite Hu.
  - by apply capital_not_space.
  - by apply capital_not_space.
Qed.

Lemma normalizeLetter_capital_witness :
  oneCapital (str "H") /\
  normalizeLetter (Some (JStr (str "H"))) = Some (str "H").
Proof.
  apply (normalizeLetter_capital (Some (JStr (str " h "))) (str "H")).
  reflexivity.
Defined.

(** X2: white space around the label and the case of the letter do not
    matter: a Basic Latin letter, small or capital, between any two runs of
    white space normalises to its capital. *)
Theorem normalizeLetter_folds :
  forall (before after : jsstring) (u : N),
    Forall (fun v => isWhiteSpace v = true) before ->
    Forall (fun v => isWhiteSpace v = true) after ->
    (isCapital u = true \/ isCapital (u - 32) = true /\ (97 <= u)%N) ->
    normalizeLetter (Some (JStr (before ++ [u] ++ after)))
    = Some [if isCapital u then u else (u - 32)%N].
Proof.
  intros before after u Hbefore Hafter Hu.
  assert (Hns : isWhiteSpace u = false).
  { destruct Hu as [Hu | [Hu Hlow]]; [by apply capital_not_space |].
    unfold isCapital in Hu. apply andb_true_iff in Hu as [H1 H2].
    apply N.leb_le in H1, H2. unfold isWhiteSpace.
    repeat (apply orb_false_intro);
      first [ apply andb_false_iff; (left; apply N.leb_gt; lia)
                                    || (right; apply N.leb_gt; lia)
            | apply N.eqb_neq; lia ]. }
  assert (Htrim : trim (before ++ [u] ++ after) = [u]).
  { unfold trim. rewrite trimStart_spaces; [| done | by simpl].
    rewrite rev_app_distr. simpl.
    rewrite trimStart_spaces; [done | | by simpl].
    by apply Forall_rev. }
  rewrite normalizeLetter_string by (by destruct before).
  rewrite Htrim. unfold toUpperCase. simpl.
  destruct Hu as [Hu | [Hu Hlow]].
  - rewrite (capital_upper u Hu), Hu. simpl.
    unfold isCapital in Hu. by rewrite Hu.
  - assert (Hnot : isCapital u = false).
    { unfold isCapital. apply andb_false_iff. right. apply N.leb_gt. lia. }
    rewrite Hnot. unfold toUpperCaseUnit.
    unfold isCapital in Hu. apply andb_true_iff in Hu as [H1 H2].
    pose proof H1 as H1'. pose proof H2 as H2'.
    apply N.leb_le in H1', H2'.
    destruct (N.leb_spec 97 u); [| lia].
    destruct (N.leb_spec u 122); [| lia]. simpl.
    by rewrite H1, H2.
Qed.

Lemma normalizeLetter_folds_witness :
  normalizeLetter (Some (JStr (str "  " ++ [104%N] ++ [10%N])))
  = Some [if isCapital 104 then 104%N else (104 - 32)%N].
Proof.
  apply (normalizeLetter_folds (str "  ") [10%N] 104%N).
  - repeat constructor.
  - repeat constructor.
  - right. split; [reflexivity | lia].
Defined.

(** *** What one call does to the store *)

(** X3: a label that does not normalise to a letter, with a confidence that
    passes the first gate, is rejected as [invalid_letter]; nothing is
    pushed on the window, an existing session and the whole store stay as
    they were. *)
Theorem invalid_label_rejected :
  forall (STABILITY_COUNT now now' : Z) (letter : JsValue)
         (confidence : float) (sessionId : jsstring)
         (sessions : gmap jsstring Session),
    (confidence <? MIN_CONFIDENCE)%float = false ->
    normalizeLetter letter = None ->
    let session := sessionOf sessions sessionId now in
    let out :=
      accumulateLetter STABILITY_COUNT now now' letter confidence sessionId
        sessions in
    fst out = rejected sessionId session invalid_letter None None /\
    snd out !! sessionId = Some session /\
    (is_Some (sessions !! sessionId) -> snd out = sessions).
Proof.
  intros T now now' letter confidence sessionId sessions Hconf Hletter
    session out.
  subst out. unfold accumulateLetter. rewrite Hconf, Hletter. fold session.
  simpl. split; [done |]. split; [apply lookup_insert_eq |].
  intros [s Hs]. apply insert_id. subst session. unfold sessionOf.
  by rewrite Hs.
Qed.

Lemma invalid_label_rejected_witness :
  fst (accumulateLetter 3 0 0 (Some (JStr (str "nothing"))) 0.9%float
         (str "default") storeAfterHHH)
  = rejected (str "default") (sessionOf storeAfterHHH (str "default") 0)
      invalid_letter None None.
Proof.
  apply (invalid_label_rejected 3 0 0 (Some (JStr (str "nothing"))) 0.9%float
           (str "default") storeAfterHHH); reflexivity.
Defined.

(** X4: a call works on its own session only: whatever the input, the
    session exists afterwards, every other session of the store is what it
    was, and no session disappears. *)
Theorem accumulateLetter_frame :
  forall (STABILITY_COUNT now now' : Z) (letter : JsValue)
         (confidence : float) (sessionId : jsstring)
         (sessions : gmap jsstring Session),
    let sessions' :=
      snd (accumulateLetter STABILITY_COUNT now now' letter confidence
             sessionId sessions) in
    is_Some (sessions' !! sessionId) /\
    (forall other, other <> sessionId ->
                   sessions' !! other = sessions !! other) /\
    dom sessions' = {[sessionId]} ∪ dom sessions.
Proof.
  intros T now now' letter confidence sessionId sessions sessions'.
  subst sessions'. rewrite accumulateLetter_on. unfold inStore. simpl.
  split; [rewrite lookup_insert_eq; by eexists |].
  split; [intros other Hne; by rewrite lookup_insert_ne |].
  apply dom_insert_L.
Qed.

(** X5: the letters of a session only grow, and by one letter at most: after
    a call they are the letters before, or those with the normalised label
    appended, in which case the call is accepted and the recent window is
    empty; a call that is not accepted leaves letters and timestamp alone.
    The value returned always carries the letters as the call leaves them
    and their concatenation as accumulated text. *)
Theorem letters_grow_by_one :
  forall (STABILITY_COUNT now now' : Z) (letter : JsValue)
         (confidence : float) (sessionId : jsstring)
         (sessions : gmap jsstring Session),
    let before := sessionOf sessions sessionId now in
    let out :=
      accumulateLetter STABILITY_COUNT now now' letter confidence sessionId
        sessions in
    exists after,
      snd out !! sessionId = Some after /\
      r_sessionId (fst out) = sessionId /\
      r_letters (fst out) = letters after /\
      accumulatedText (fst out) = join (letters after) /\
      (letters after = letters before /\ updatedAt after = updatedAt before
       \/
       exists c, normalizeLetter letter = Some c /\
                 last (letters before) <> Some c /\
                 accepted (fst out) = true /\
                 letters after = letters before ++ [c] /\
                 recentPredictions after = [] /\
                 updatedAt after = now') /\
      (accepted (fst out) = false ->
       letters after = letters before /\
       updatedAt after = updatedAt before).
Proof.
  intros T now now' letter confidence sessionId sessions before out.
  subst out. rewrite accumulateLetter_on. fold before. unfold inStore.
  simpl. eexists. split; [apply lookup_insert_eq |].
  unfold accumulateOn.
  destruct (confidence <? MIN_CONFIDENCE)%float; simpl.
  { repeat split; try done. by left. }
  destruct (normalizeLetter letter) as [c |]; simpl.
  2: { repeat split; try done. by left. }
  destruct (Z.of_nat _ <? T); simpl.
  { repeat split; try done. by left. }
  destruct (negb _); simpl.
  { repeat split; try done. by left. }
  case_bool_decide as Hlast; simpl.
  - repeat split; try done. right. by exists c.
  - repeat split; try done. by left.
Qed.

(** *** The shape of the accumulated letters *)

Lemma noRepeat_snoc (l : list jsstring) (c : jsstring) :
  noRepeat l -> last l <> Some c -> noRepeat (l ++ [c]).
Proof.
  induction l as [| a l IH]; [done |].
  destruct l as [| b l]; simpl.
  - intros _ Hne. split; [| done]. intros ->. by apply Hne.
  - intros [Hab Hl] Hlast. split; [done |]. by apply IH.
Qed.

Lemma pushRecent_capitals (STABILITY_COUNT : Z) (w : list jsstring)
    (c : jsstring) :
  Forall oneCapital w -> oneCapital c ->
  Forall oneCapital (pushRecent STABILITY_COUNT w c).
Proof.
  intros Hw Hc. unfold pushRecent. cbv zeta.
  assert (Hall : Forall oneCapital (w ++ [c])).
  { apply Forall_app. split; [done | by constructor]. }
  destruct (_ >? _); [| done].
  destruct Hall; [constructor | done].
Qed.

Lemma accumulateOn_wellFormed (STABILITY_COUNT now' : Z) (letter : JsValue)
    (confidence : float) (sessionId : jsstring) (s : Session) :
  lettersWellFormed s ->
  lettersWellFormed
    (snd (accumulateOn STABILITY_COUNT now' letter confidence sessionId s)).
Proof.
  intros (Hcap & Hrep & Hwin). unfold accumulateOn.
  destruct (confidence <? MIN_CONFIDENCE)%float; [done |].
  destruct (normalizeLetter letter) as [c |] eqn:Hc; [| done].
  apply normalizeLetter_oneCapital in Hc.
  pose proof (pushRecent_capitals STABILITY_COUNT _ c Hwin Hc) as Hwin'.
  cbv zeta.
  destruct (Z.of_nat _ <? STABILITY_COUNT); [done |].
  destruct (negb _); [done |].
  case_bool_decide as Hlast; [| done]. simpl.
  split; [| split].
  - apply Forall_app. split; [done | by constructor].
  - by apply noRepeat_snoc.
  - constructor.
Qed.

Lemma reachable_wellFormed (STABILITY_COUNT : Z)
    (sessions : gmap jsstring Session) :
  reachable STABILITY_COUNT sessions ->
  forall sessionId s, sessions !! sessionId = Some s -> lettersWellFormed s.
Proof.
  induction 1 as [| e sessions _ IH]; intros sid s.
  { by rewrite lookup_empty. }
  destruct e as [now now' letter conf sid' | sid' | sid' t o]; simpl.
  - rewrite accumulateLetter_on. unfold inStore. simpl.
    destruct (decide (sid = sid')) as [-> | Hne].
    + rewrite lookup_insert_eq. intros [= <-].
      apply accumulateOn_wellFormed. unfold sessionOf.
      destruct (sessions !! sid') as [s0 |] eqn:Hs0; [by eapply IH |].
      repeat split; constructor.
    + rewrite lookup_insert_ne by done. apply IH.
  - unfold clearSession. case_bool_decide; [| apply IH].
    intros [_ Hs]%lookup_delete_Some. by eapply IH.
  - destruct o as [text | msg]; simpl; [| apply IH].
    case_bool_decide; [| apply IH].
    intros [_ Hs]%lookup_delete_Some. by eapply IH.
Qed.

Lemma join_capitals_length (l : list jsstring) :
  Forall oneCapital l -> length (join l) = length l.
Proof.
  induction 1 as [| c l (u & -> & _) _ IH]; [done |]. simpl. by rewrite IH.
Qed.

(** X6: in every store the server can reach, the letters of a session are
    capitals A-Z of one code unit each, no letter is followed by the same
    letter (a doubled letter cannot be accumulated), the recent window holds
    capitals only, and the accumulated text is as long as there are
    letters. *)
Theorem letters_are_capitals_without_repeat :
  forall (STABILITY_COUNT : Z) (sessions : gmap jsstring Session)
         (sessionId : jsstring) (s : Session),
    reachable STABILITY_COUNT sessions ->
    sessions !! sessionId = Some s ->
    Forall oneCapital (letters s) /\
    noRepeat (letters s) /\
    Forall oneCapital (recentPredictions s) /\
    length (join (letters s)) = length (letters s).
Proof.
  intros T sessions sessionId s Hreach Hs.
  destruct (reachable_wellFormed T sessions Hreach sessionId s Hs)
    as (Hcap & Hrep & Hwin).
  repeat split; try done. by apply join_capitals_length.
Qed.

Lemma letters_are_capitals_without_repeat_witness :
  noRepeat (lettersOf storeAfterHHH (str "default")).
Proof.
  apply (letters_are_capitals_without_repeat 3 storeAfterHHH (str "default")
           (mkSession [str "H"] [] 0)).
  - apply serverRun_reachable, reachable_start.
  - vm_compute. reflexivity.
Defined.

(** *** What a commit needs *)

Lemma snoc_replicate (w : list jsstring) (c : jsstring) :
  w ++ [c] = replicate (length (w ++ [c])) c -> w = replicate (length w) c.
Proof.
  rewrite length_app. simpl.
  replace (length w + 1)%nat with (S (length w)) by lia.
  rewrite replicate_S_end. by intros [Hw _]%app_inj_tail.
Qed.

Lemma uniform_push_suffix (STABILITY_COUNT : Z) (w : list jsstring)
    (c : jsstring) :
  0 < STABILITY_COUNT ->
  Z.of_nat (length w) <= STABILITY_COUNT ->
  STABILITY_COUNT
  <= Z.of_nat (length (pushRecent STABILITY_COUNT w c)) ->
  pushRecent STABILITY_COUNT w c
  = replicate (length (pushRecent STABILITY_COUNT w c)) c ->
  replicate (Z.to_nat (STABILITY_COUNT - 1)) c `suffix_of` w.
Proof.
  intros HT Hb. unfold pushRecent. cbv zeta.
  destruct (Z.gtb_spec (Z.of_nat (length (w ++ [c]))) STABILITY_COUNT)
    as [Hgt | Hle].
  - rewrite length_app in Hgt. simpl in Hgt.
    destruct w as [| x w']; [simpl in *; lia |].
    change (tail ((x :: w') ++ [c])) with (w' ++ [c]).
    intros _ Hu%snoc_replicate. exists [x]. simpl. f_equal.
    rewrite Hu at 1. f_equal. simpl in Hb, Hgt. lia.
  - intros Hlen Hu%snoc_replicate. exists []. simpl.
    rewrite Hu at 1. f_equal.
    rewrite length_app in Hle, Hlen. simpl in Hle, Hlen. lia.
Qed.

(** X7: an accepted call has found the label in the newest entries of the
    window already: in a store the server can reach, the recent window
    before the call ends with threshold - 1 copies of the normalised label,
    and the confidence has passed the gate. *)
Theorem accepted_needs_full_run :
  forall (STABILITY_COUNT now now' : Z) (letter : JsValue)
         (confidence : float) (sessionId : jsstring)
         (sessions : gmap jsstring Session),
    0 < STABILITY_COUNT ->
    reachable STABILITY_COUNT sessions ->
    accepted (fst (accumulateLetter STABILITY_COUNT now now' letter
                     confidence sessionId sessions)) = true ->
    exists c,
      normalizeLetter letter = Some c /\
      (confidence <? MIN_CONFIDENCE)%float = false /\
      replicate (Z.to_nat (STABILITY_COUNT - 1)) c
        `suffix_of` windowOf sessions sessionId.
Proof.
  intros T now now' letter confidence sessionId sessions HT Hreach.
  rewrite accumulateLetter_on. unfold inStore. simpl.
  pose proof (sessionOf_bounded T ltac:(lia) sessions sessionId now
                (reachable_bounded T ltac:(lia) sessions Hreach)) as Hb.
  unfold windowBounded in Hb.
  rewrite (windowOf_sessionOf sessions sessionId now) in Hb.
  rewrite <- (windowOf_sessionOf sessions sessionId now).
  unfold accumulateOn.
  destruct (confidence <? MIN_CONFIDENCE)%float; [done |].
  destruct (normalizeLetter letter) as [c |]; [| done]. cbv zeta.
  rewrite (windowOf_sessionOf sessions sessionId now) in *.
  set (w := windowOf sessions sessionId) in *.
  destruct (Z.ltb_spec (Z.of_nat (length (pushRecent T w c))) T)
    as [| Hlen]; [done |].
  destruct (forallb _ (pushRecent T w c)) eqn:Hu; [| done].
  intros _. exists c. split; [done |]. split; [done |].
  apply uniform_is_replicate in Hu.
  by apply (uniform_push_suffix T w c).
Qed.

Lemma accepted_needs_full_run_witness :
  exists c,
    normalizeLetter (Some (JStr (str "H"))) = Some c /\
    (0.9 <? MIN_CONFIDENCE)%float = false /\
    replicate (Z.to_nat (3 - 1)) c `suffix_of` windowOf storeAfterHH
                                                 (str "default").
Proof.
  apply (accepted_needs_full_run 3 0 0 (Some (JStr (str "H"))) 0.9%float
           (str "default") storeAfterHH).
  - lia.
  - apply serverRun_reachable, reachable_start.
  - vm_compute. reflexivity.
Defined.

(** X8: the progress a caller can show.  A call reports a progress exactly
    when it rejects for insufficient stability; the progress is then the
    length of the window it leaves, one more than before the call, at least
    1 and below the required count, which is reported as the threshold. *)
Theorem stability_progress_reported :
  forall (STABILITY_COUNT now now' : Z) (letter : JsValue)
         (confidence : float) (sessionId : jsstring)
         (sessions : gmap jsstring Session),
    let out :=
      accumulateLetter STABILITY_COUNT now now' letter confidence sessionId
        sessions in
    (reason (fst out) = Some insufficient_stability <->
     is_Some (stabilityProgress (fst out))) /\
    (is_Some (stabilityRequired (fst out)) <->
     is_Some (stabilityProgress (fst out))) /\
    forall n,
      stabilityProgress (fst out) = Some n ->
      accepted (fst out) = false /\
      stabilityRequired (fst out) = Some STABILITY_COUNT /\
      (1 <= n)%nat /\ Z.of_nat n < STABILITY_COUNT /\
      n = length (windowOf (snd out) sessionId) /\
      n = S (length (windowOf sessions sessionId)).
Proof.
  intros T now now' letter confidence sessionId sessions out. subst out.
  rewrite accumulateLetter_on. unfold inStore, windowOf at 1. simpl.
  rewrite lookup_insert_eq. simpl.
  rewrite <- (windowOf_sessionOf sessions sessionId now).
  unfold accumulateOn.
  assert (Hno : forall A (x : A), ~ is_Some (@None A)) by (by intros ? ? []).
  destruct (confidence <? MIN_CONFIDENCE)%float; simpl.
  { split; [| split]; [split; [done | by intros []] .. | done]. }
  destruct (normalizeLetter letter) as [c |]; simpl.
  2: { split; [| split]; [split; [done | by intros []] .. | done]. }
  set (w := recentPredictions (sessionOf sessions sessionId now)).
  destruct (Z.ltb_spec (Z.of_nat (length (pushRecent T w c))) T)
    as [Hshort | Hfull]; simpl.
  - split; [| split]; [split; by eexists .. |].
    intros n [= <-]. split; [done |]. split; [done |].
    revert Hshort. unfold pushRecent. cbv zeta.
    destruct (Z.gtb_spec (Z.of_nat (length (w ++ [c]))) T) as [Hgt | Hle].
    + rewrite tail_length. rewrite length_app in *. simpl in *. lia.
    + rewrite length_app. simpl. lia.
  - destruct (negb _); simpl.
    { split; [| split]; [split; [done | by intros []] .. | done]. }
    split; [| split]; [split; [done | by intros []] .. | done].
Qed.

Lemma stability_progress_reported_witness :
  stabilityRequired
    (fst (accumulateLetter 3 0 0 (Some (JStr (str "H"))) 0.9%float
            (str "default") ∅))
  = Some 3 /\
  (1 = S (length (windowOf ∅ (str "default"))))%nat.
Proof.
  destruct (stability_progress_reported 3 0 0 (Some (JStr (str "H")))
              0.9%float (str "default") ∅) as (_ & _ & Hprogress).
  destruct (Hprogress 1%nat eq_refl) as (_ & Hrequired & _ & _ & _ & Hone).
  split; [exact Hrequired | exact Hone].
Defined.

(** X9: clearing removes the session as a whole and nothing else, clearing
    twice is clearing once, and the next frame for that session is treated
    as if the session had never existed. *)
Theorem cleared_session_starts_afresh :
  forall (STABILITY_COUNT now now' : Z) (letter : JsValue)
         (confidence : float) (sessionId : jsstring)
         (sessions : gmap jsstring Session),
    let cleared := clearSession sessionId sessions in
    cleared !! sessionId = None /\
    (forall other, other <> sessionId ->
                   cleared !! other = sessions !! other) /\
    clearSession sessionId cleared = cleared /\
    fst (accumulateLetter STABILITY_COUNT now now' letter confidence
           sessionId cleared)
    = fst (accumulateLetter STABILITY_COUNT now now' letter confidence
             sessionId ∅) /\
    snd (accumulateLetter STABILITY_COUNT now now' letter confidence
           sessionId cleared) !! sessionId
    = snd (accumulateLetter STABILITY_COUNT now now' letter confidence
             sessionId ∅) !! sessionId.
Proof.
  intros T now now' letter confidence sessionId sessions cleared.
  assert (Hcleared : cleared = delete sessionId sessions).
  { subst cleared. unfold clearSession. case_bool_decide as Hsome; [done |].
    symmetry. apply delete_id.
    destruct (sessions !! sessionId) eqn:Hs; [| done].
    destruct Hsome. by eexists. }
  assert (Hnone : cleared !! sessionId = None).
  { rewrite Hcleared. apply lookup_delete_eq. }
  split; [done |].
  split; [intros other Hne; rewrite Hcleared; by apply lookup_delete_ne |].
  split.
  { unfold clearSession. rewrite Hnone.
    by rewrite bool_decide_false by (by intros []). }
  rewrite !accumulateLetter_on. unfold inStore, sessionOf. simpl.
  by rewrite Hnone, lookup_empty, !lookup_insert_eq.
Qed.

(** *** Flicker *)

Lemma pushRecent_suffix (STABILITY_COUNT : Z) (w history : list jsstring)
    (c : jsstring) :
  w `suffix_of` history ->
  pushRecent STABILITY_COUNT w c `suffix_of` history ++ [c].
Proof.
  intros [k ->]. unfold pushRecent. cbv zeta.
  destruct (_ >? _).
  - destruct w as [| x w]; simpl.
    + exists (k ++ [c]). by rewrite !app_nil_r.
    + exists (k ++ [x]). by rewrite <- !(assoc_L (++)).
  - exists k. by rewrite (assoc_L (++)).
Qed.

Lemma full_uniform_run (n : nat) (w history after : list jsstring)
    (c : jsstring) :
  w `suffix_of` history -> (n <= length w)%nat ->
  w = replicate (length w) c ->
  hasRun n (history ++ after).
Proof.
  intros [k ->] Hn Hw. exists c, k, (replicate (length w - n) c ++ after).
  rewrite <- (assoc_L (++)). f_equal. rewrite (assoc_L (++)). f_equal.
  rewrite <- replicate_add. rewrite Hw at 1. f_equal. lia.
Qed.

Lemma feedOn_without_run (STABILITY_COUNT : Z) (sessionId : jsstring)
    (frames : list Frame) :
  forall (s : Session) (history : list jsstring),
    recentPredictions s `suffix_of` history ->
    ~ hasRun (Z.to_nat STABILITY_COUNT) (history ++ labelsOf frames) ->
    Forall (fun out => accepted (fst out) = false /\
                       letters (snd out) = letters s)
      (feedOn STABILITY_COUNT sessionId frames s).
Proof.
  induction frames as [| f frames IH]; intros s history Hsuf Hrun;
    [constructor |].
  simpl. unfold labelsOf in Hrun. simpl in Hrun. unfold gateLabel in Hrun.
  fold gateLabel in Hrun. fold (labelsOf frames) in Hrun.
  unfold accumulateOn.
  destruct (frameConfidence f <? MIN_CONFIDENCE)%float; simpl.
  { constructor; [done |]. by apply (IH s history). }
  destruct (normalizeLetter (frameLetter f)) as [c |]; simpl.
  2: { constructor; [done |]. by apply (IH s history). }
  pose proof (pushRecent_suffix STABILITY_COUNT _ _ c Hsuf) as Hsuf'.
  set (w := pushRecent STABILITY_COUNT (recentPredictions s) c) in *.
  assert (Hrun' : ~ hasRun (Z.to_nat STABILITY_COUNT)
                      ((history ++ [c]) ++ labelsOf frames)).
  { by rewrite <- (assoc_L (++)). }
  set (s1 := mkSession (letters s) w (updatedAt s)).
  assert (Hnext : Forall (fun out => accepted (fst out) = false /\
                                     letters (snd out) = letters s)
                    (feedOn STABILITY_COUNT sessionId frames s1)).
  { by apply (IH s1 (history ++ [c])). }
  destruct (Z.ltb_spec (Z.of_nat (length w)) STABILITY_COUNT)
    as [| Hlen]; simpl; [by constructor |].
  destruct (forallb _ w) eqn:Hu; simpl; [| by constructor].
  exfalso. apply Hrun'. apply uniform_is_replicate in Hu.
  apply (full_uniform_run _ w _ _ c); [done | lia | done].
Qed.

(** X10: flicker never commits.  If the labels that pass both gates, put
    after the entries already in the window, hold no run of threshold equal
    labels, then no frame of the run is accepted and the letters of the
    session stay as they are, however many frames are fed. *)
Theorem flicker_never_commits :
  forall (STABILITY_COUNT : Z) (sessionId : jsstring) (frames : list Frame)
         (sessions : gmap jsstring Session),
    ~ hasRun (Z.to_nat STABILITY_COUNT)
        (windowOf sessions sessionId ++ labelsOf frames) ->
    Forall (fun out => accepted (fst out) = false /\
                       lettersOf (snd out) sessionId
                       = lettersOf sessions sessionId)
      (feed STABILITY_COUNT sessionId frames sessions).
Proof.
  intros T sessionId frames sessions Hrun.
  destruct frames as [| f frames]; [constructor |].
  set (s := sessionOf sessions sessionId (frameNow f)).
  rewrite (feed_on T sessionId (f :: frames) sessions s)
    by (by intros f' [= <-]).
  apply Forall_map.
  eapply Forall_impl.
  - apply (feedOn_without_run T sessionId (f :: frames) s
             (recentPredictions s)); [done |].
    subst s. by rewrite windowOf_sessionOf.
  - intros [r s'] [Hacc Hlet]. unfold inStore. simpl.
    rewrite lettersOf_insert. subst s.
    by rewrite lettersOf_sessionOf in Hlet.
Qed.

Lemma flicker_never_commits_witness :
  Forall (fun out => accepted (fst out) = false /\
                     lettersOf (snd out) (str "default")
                     = lettersOf storeAfterHH (str "default"))
    (feed 3 (str "default") [frameE; frameH; frameH; frameE] storeAfterHH).
Proof.
  apply (flicker_never_commits 3 (str "default")
           [frameE; frameH; frameH; frameE] storeAfterHH).
  intros (c & before & after & Hrun). vm_compute in Hrun.
  repeat (destruct before as [| ? before]; simpl in Hrun;
          [congruence | try congruence; injection Hrun as _ Hrun]).
Defined.

(** ** Further properties of the hand-off *)

Lemma join_capitals_nonempty (l : list jsstring) :
  Forall oneCapital l -> join l = [] -> l = [].
Proof. intros Hl. by destruct Hl as [| c l (u & -> & _) _]. Qed.

(** X11: for a request that brings no text of its own, in a store the
    server can reach: when the session has letters the handler goes on to
    the remote call with exactly the accumulated text (nothing trimmed away,
    never empty) in the prompt; when the session does not exist or has no
    letter yet it answers 400 and calls nobody. *)
Theorem handoff_sends_the_accumulated_text :
  forall (STABILITY_COUNT : Z) (body : SendBody)
         (sessions : gmap jsstring Session),
    reachable STABILITY_COUNT sessions ->
    bodyText body = None ->
    let sessionId := default (str "default") (bodySessionId body) in
    let text := join (lettersOf sessions sessionId) in
    sendToGemini_start body sessions
    = (if bool_decide (lettersOf sessions sessionId = []) then
         Responded
           (BadRequest (str "No accumulated text found for this session."))
       else Awaiting sessionId text (promptFor text)) /\
    (lettersOf sessions sessionId <> [] -> text <> []).
Proof.
  intros T body sessions Hreach Htext sessionId text.
  assert (Hcap : Forall oneCapital (lettersOf sessions sessionId)).
  { unfold lettersOf.
    destruct (sessions !! sessionId) as [s |] eqn:Hs; [| constructor].
    by destruct (reachable_wellFormed T sessions Hreach sessionId s Hs). }
  split.
  - unfold sendToGemini_start. rewrite Htext. fold sessionId.
    subst text. revert Hcap. unfold lettersOf.
    destruct (sessions !! sessionId) as [s |]; simpl; [| done].
    intros Hcap. case_bool_decide as Hl.
    + by rewrite Hl.
    + destruct (join (letters s)) as [| u t] eqn:Hj.
      { by apply join_capitals_nonempty in Hj. }
      by rewrite <- Hj, (trim_capitals _ Hcap).
  - intros Hne Hj. by apply join_capitals_nonempty in Hj.
Qed.

Lemma handoff_sends_the_accumulated_text_witness :
  sendToGemini_start sendDefault storeAfterHHH
  = (if bool_decide (lettersOf storeAfterHHH (str "default") = []) then
       Responded
         (BadRequest (str "No accumulated text found for this session."))
     else
       Awaiting (str "default")
         (join (lettersOf storeAfterHHH (str "default")))
         (promptFor (join (lettersOf storeAfterHHH (str "default"))))).
Proof.
  apply (handoff_sends_the_accumulated_text 3 sendDefault storeAfterHHH).
  - apply serverRun_reachable, reachable_start.
  - reflexivity.
Defined.

(** X12: a request that brings a text of its own, not blank, is served from
    that text, trimmed, whatever the store holds; the session it names is
    deleted all the same when the remote call answers.  A text that is
    neither absent nor a string makes the handler answer 500 with the store
    unchanged. *)
Theorem explicit_text_overrides_the_session :
  forall (body : SendBody) (sessions : gmap jsstring Session)
         (outcome : GeminiOutcome),
    let sessionId := default (str "default") (bodySessionId body) in
    (forall t,
        bodyText body = Some (JStr t) -> trim t <> [] ->
        sendToGemini_start body sessions
        = Awaiting sessionId (trim t) (promptFor (trim t)) /\
        forall answer,
          sendToGemini body (Answer answer) sessions
          = (Sentence (trim answer) (trim t), delete sessionId sessions)) /\
    (forall v,
        bodyText body = Some v -> v <> JNull ->
        (forall t, v <> JStr t) ->
        exists message,
          sendToGemini body outcome sessions
          = (ServerError (str "Failed to generate sentence") message,
             sessions)).
Proof.
  intros body sessions outcome sessionId. split.
  - intros t Htext Ht.
    assert (Hstart : sendToGemini_start body sessions
                     = Awaiting sessionId (trim t) (promptFor (trim t))).
    { unfold sendToGemini_start. rewrite Htext. fold sessionId.
      destruct (trim t) as [| u t'] eqn:Htrim; [done |].
      by rewrite <- Htrim, trim_idempotent. }
    split; [exact Hstart |].
    intros answer. unfold sendToGemini. rewrite Hstart. simpl.
    case_bool_decide as Hsome; [done |].
    f_equal. symmetry. apply delete_id.
    destruct (sessions !! sessionId) eqn:Hs; [| done].
    destruct Hsome. by eexists.
  - intros v Htext Hnull Hstr. eexists.
    unfold sendToGemini, sendToGemini_start. rewrite Htext.
    destruct v as [| b | f | t | l | o]; try done.
    by destruct (Hstr t).
Qed.

Lemma explicit_text_overrides_the_session_witness :
  sendToGemini_start (mkSendBody None (Some (JStr (str " hi ")))) storeAfterHHH
  = Awaiting (str "default") (str "hi") (promptFor (str "hi")) /\
  exists message,
    sendToGemini (mkSendBody None (Some (JBool true))) (Answer (str "Hi."))
      storeAfterHHH
    = (ServerError (str "Failed to generate sentence") message,
       storeAfterHHH).
Proof.
  split.
  - destruct (explicit_text_overrides_the_session
                (mkSendBody None (Some (JStr (str " hi ")))) storeAfterHHH
                (Answer (str "Hi."))) as [Htext _].
    destruct (Htext (str " hi ") eq_refl) as [Hstart _]; [done |].
    exact Hstart.
  - destruct (explicit_text_overrides_the_session
                (mkSendBody None (Some (JBool true))) storeAfterHHH
                (Answer (str "Hi."))) as [_ Hother].
    by apply (Hother (JBool true)).
Defined.

(** ** Properties of the route that classifies a frame *)

Lemma pushRecent_short_nonempty (STABILITY_COUNT : Z) (w : list jsstring)
    (c : jsstring) :
  Z.of_nat (length (pushRecent STABILITY_COUNT w c)) < STABILITY_COUNT ->
  length (pushRecent STABILITY_COUNT w c) <> O.
Proof.
  unfold pushRecent. cbv zeta.
  destruct (Z.gtb_spec (Z.of_nat (length (w ++ [c]))) STABILITY_COUNT)
    as [Hgt | Hle].
  - rewrite length_app in Hgt. rewrite tail_length, length_app.
    simpl in *. lia.
  - rewrite length_app. simpl. lia.
Qed.

Lemma accumulation_fields (STABILITY_COUNT now now' : Z) (letter : JsValue)
    (confidence : float) (sessionId : jsstring)
    (sessions : gmap jsstring Session) :
  let out :=
    accumulateLetter STABILITY_COUNT now now' letter confidence sessionId
      sessions in
  (forall c, acceptedLetter (fst out) = Some c -> c <> []) /\
  (forall n, stabilityProgress (fst out) = Some n -> n <> O) /\
  (forall t, stabilityRequired (fst out) = Some t -> t = STABILITY_COUNT) /\
  r_sessionId (fst out) = sessionId /\
  r_letters (fst out) = lettersOf (snd out) sessionId /\
  accumulatedText (fst out) = join (lettersOf (snd out) sessionId).
Proof.
  intros out. subst out. rewrite accumulateLetter_on.
  unfold inStore. simpl. rewrite lettersOf_insert. unfold accumulateOn.
  destruct (confidence <? MIN_CONFIDENCE)%float; [done |].
  destruct (normalizeLetter letter) as [c |] eqn:Hc; [| done].
  apply normalizeLetter_oneCapital in Hc as (u & -> & _). cbv zeta.
  set (w := recentPredictions (sessionOf sessions sessionId now)).
  destruct (Z.ltb_spec (Z.of_nat (length (pushRecent STABILITY_COUNT w [u])))
              STABILITY_COUNT) as [Hshort | Hfull]; simpl.
  - repeat split; try done; [| by intros t [= <-]].
    intros n [= <-]. by apply pushRecent_short_nonempty.
  - destruct (negb _); simpl; [done |].
    case_bool_decide; simpl; repeat split; try done; by intros c [= <-].
Qed.

(** X13: what the route answers.  When the promise of the bridge is
    rejected (time-out, exit of the worker, error of the worker, failed
    write) the route answers with that error and the store of sessions is
    unchanged.  When it is fulfilled the store changes as [accumulateLetter]
    changes it, for the session of the request only, and the reply carries
    the worker's letter and confidence as they came, the verdict, the
    committed letter, the reason and the progress of the accumulation with
    nothing lost to the [|| null] of lines 156-160, and the letters and the
    accumulated text as the session holds them after the call. *)
Theorem classify_route_reply :
  forall (STABILITY_COUNT : Z) (toNumberOther : Json -> float)
         (sessionId : jsstring) (now now' : Z)
         (sessions : gmap jsstring Session),
    STABILITY_COUNT <> 0 ->
    (forall error,
        classifyRoute_resume STABILITY_COUNT toNumberOther sessionId now now'
          (RejectedWith error) sessions
        = (ClassifyFailed error, sessions)) /\
    (forall letter confidence,
        let out :=
          accumulateLetter STABILITY_COUNT now now' letter
            (toNumber toNumberOther confidence) sessionId sessions in
        let after := snd out in
        classifyRoute_resume STABILITY_COUNT toNumberOther sessionId now now'
          (Fulfilled letter confidence) sessions
        = (FrameClassified
             (mkClassifyReply letter confidence
                (join (lettersOf after sessionId))
                (lettersOf after sessionId) sessionId
                (accepted (fst out)) (acceptedLetter (fst out))
                (reason (fst out)) (stabilityProgress (fst out))
                (stabilityRequired (fst out))),
           after) /\
        (forall other, other <> sessionId ->
                       after !! other = sessions !! other)).
Proof.
  intros T toNumberOther sessionId now now' sessions HT.
  split; [done |].
  intros letter confidence out after. subst after. split.
  - unfold classifyRoute_resume. fold out.
    destruct (accumulation_fields T now now' letter
                (toNumber toNumberOther confidence) sessionId sessions)
      as (Hletter & Hprogress & Hrequired & Hsid & Hletters & Htext).
    fold out in Hletter, Hprogress, Hrequired, Hsid, Hletters, Htext.
    rewrite Hsid, Hletters, Htext. cbv zeta.
    assert (stringOrNull (acceptedLetter (fst out))
            = acceptedLetter (fst out)) as ->.
    { destruct (acceptedLetter (fst out)) as [[| u c] |]; try done.
      by destruct (Hletter [] eq_refl). }
    assert (natOrNull (stabilityProgress (fst out))
            = stabilityProgress (fst out)) as ->.
    { destruct (stabilityProgress (fst out)) as [[| n] |]; try done.
      by destruct (Hprogress O eq_refl). }
    assert (intOrNull (stabilityRequired (fst out))
            = stabilityRequired (fst out)) as ->.
    { destruct (stabilityRequired (fst out)) as [t |]; [| done].
      rewrite (Hrequired t eq_refl). by destruct T. }
    done.
  - intros other Hne. subst out. rewrite accumulateLetter_on.
    unfold inStore. simpl. by rewrite lookup_insert_ne.
Qed.

Lemma classify_route_reply_witness :
  classifyRoute_resume 3 (fun _ => nan) (str "default") 0 0
    (RejectedWith timedOut) storeAfterHH
  = (ClassifyFailed timedOut, storeAfterHH).
Proof.
  apply (classify_route_reply 3 (fun _ => nan) (str "default") 0 0
           storeAfterHH).
  lia.
Defined.

(** ** A threshold of one *)

Lemma pushRecent_low (STABILITY_COUNT : Z) (w : list jsstring)
    (c : jsstring) :
  STABILITY_COUNT <= 1 -> (length w <= 1)%nat ->
  (pushRecent STABILITY_COUNT w c = []
   \/ pushRecent STABILITY_COUNT w c = [c]) /\
  (Z.of_nat (length (pushRecent STABILITY_COUNT w c)) <? STABILITY_COUNT)
  = false.
Proof.
  intros HT Hw. unfold pushRecent.
  destruct w as [| x [| y w]]; simpl in *; [| | lia];
    change (Z.of_nat 1) with 1; change (Z.of_nat 2) with 2.
  - destruct (Z.gtb_spec 1 STABILITY_COUNT); simpl.
    + split; [by left |]. apply Z.ltb_ge. lia.
    + split; [by right |]. apply Z.ltb_ge. lia.
  - destruct (Z.gtb_spec 2 STABILITY_COUNT); [| lia]. simpl.
    split; [by right |]. apply Z.ltb_ge. lia.
Qed.

Lemma accumulateOn_short (STABILITY_COUNT now' : Z) (letter : JsValue)
    (confidence : float) (sessionId : jsstring) (s : Session) :
  STABILITY_COUNT <= 1 -> windowShort s ->
  windowShort
    (snd (accumulateOn STABILITY_COUNT now' letter confidence sessionId s)).
Proof.
  intros HT Hs. unfold accumulateOn.
  destruct (confidence <? MIN_CONFIDENCE)%float; [done |].
  destruct (normalizeLetter letter) as [c |]; [| done].
  destruct (pushRecent_low STABILITY_COUNT (recentPredictions s) c HT Hs)
    as [Hpush Hlen].
  cbv zeta. rewrite Hlen.
  assert (Hshort : (length (pushRecent STABILITY_COUNT
                              (recentPredictions s) c) <= 1)%nat).
  { destruct Hpush as [-> | ->]; simpl; lia. }
  destruct (negb _); [done |].
  case_bool_decide; [unfold windowShort; simpl; lia | done].
Qed.

Lemma reachable_short (STABILITY_COUNT : Z)
    (sessions : gmap jsstring Session) :
  STABILITY_COUNT <= 1 -> reachable STABILITY_COUNT sessions ->
  forall sessionId s, sessions !! sessionId = Some s -> windowShort s.
Proof.
  intros HT. induction 1 as [| e sessions _ IH]; intros sid s.
  { by rewrite lookup_empty. }
  destruct e as [now now' letter conf sid' | sid' | sid' t o]; simpl.
  - rewrite accumulateLetter_on. unfold inStore. simpl.
    destruct (decide (sid = sid')) as [-> | Hne].
    + rewrite lookup_insert_eq. intros [= <-].
      apply accumulateOn_short; [done |]. unfold sessionOf.
      destruct (sessions !! sid') as [s0 |] eqn:Hs0; [by eapply IH |].
      unfold windowShort. simpl. lia.
    + rewrite lookup_insert_ne by done. apply IH.
  - unfold clearSession. case_bool_decide; [| apply IH].
    intros [_ Hs]%lookup_delete_Some. by eapply IH.
  - destruct o as [text | msg]; simpl; [| apply IH].
    case_bool_decide; [| apply IH].
    intros [_ Hs]%lookup_delete_Some. by eapply IH.
Qed.

(** X14: with a threshold of one or less ([STABILITY_COUNT=1], or a
    negative value, which [parseInt(...) || 3] lets through) there is no
    debouncing: in every store the server can reach, each frame that passes
    the confidence gate and the label gate is accepted at once, and its
    letter is appended unless it is the last committed letter. *)
Theorem threshold_of_one_accepts_at_once :
  forall (STABILITY_COUNT now now' : Z) (letter : JsValue)
         (confidence : float) (sessionId c : jsstring)
         (sessions : gmap jsstring Session),
    STABILITY_COUNT <= 1 ->
    reachable STABILITY_COUNT sessions ->
    (confidence <? MIN_CONFIDENCE)%float = false ->
    normalizeLetter letter = Some c ->
    let out :=
      accumulateLetter STABILITY_COUNT now now' letter confidence sessionId
        sessions in
    let before := lettersOf sessions sessionId in
    accepted (fst out) = true /\
    reason (fst out) = None /\
    acceptedLetter (fst out) = Some c /\
    r_letters (fst out)
    = (if bool_decide (last before = Some c) then before else before ++ [c])
    /\
    lettersOf (snd out) sessionId = r_letters (fst out).
Proof.
  intros T now now' letter confidence sessionId c sessions HT Hreach Hconf
    Hc out before.
  subst out. rewrite accumulateLetter_on. unfold inStore, lettersOf.
  cbn [fst snd]. rewrite lookup_insert_eq. simpl.
  assert (Hs : windowShort (sessionOf sessions sessionId now)).
  { unfold sessionOf.
    destruct (sessions !! sessionId) as [s0 |] eqn:Hs0.
    - by eapply reachable_short.
    - unfold windowShort. simpl. lia. }
  assert (Hbefore : before = letters (sessionOf sessions sessionId now)).
  { unfold before, lettersOf, sessionOf. by destruct (sessions !! sessionId). }
  rewrite Hbefore. clear Hbefore before.
  set (s := sessionOf sessions sessionId now) in *.
  unfold accumulateOn. rewrite Hconf, Hc.
  destruct (pushRecent_low T (recentPredictions s) c HT Hs) as [Hpush Hlen].
  cbv zeta. rewrite Hlen.
  assert (Hall : forallb (fun p => bool_decide (p = c))
                   (pushRecent T (recentPredictions s) c) = true).
  { destruct Hpush as [-> | ->]; simpl; [done |].
    by rewrite bool_decide_true. }
  rewrite Hall. simpl.
  case_bool_decide as Hlast; simpl.
  - by rewrite bool_decide_false.
  - rewrite bool_decide_true; [done |].
    by destruct (decide (last (letters s) = Some c)).
Qed.

Lemma threshold_of_one_accepts_at_once_witness :
  accepted
    (fst (accumulateLetter 1 0 0 (Some (JStr (str "H"))) 0.9%float
            (str "default") ∅))
  = true.
Proof.
  destruct (threshold_of_one_accepts_at_once 1 0 0 (Some (JStr (str "H")))
              0.9%float (str "default") (str "H") ∅)
    as (Hacc & _); [lia | apply reachable_start | done | done |].
  exact Hacc.
Defined.

(** ** The requests of the bridge *)

(** *** Request ids *)

Lemma str_inj (s t : string) : str s = str t -> s = t.
Proof.
  revert t. induction s as [| a s IH]; intros [| b t]; try done.
  unfold str. simpl. intros [= Hab Hst].
  f_equal; [| by apply IH].
  rewrite <- (ascii_N_embedding a), <- (ascii_N_embedding b). by rewrite Hab.
Qed.

Lemma pretty_N_char_digit (x : N) : isDigit (N_of_ascii (pretty_N_char x)).
Proof.
  unfold pretty_N_char, isDigit. repeat case_match; split; by vm_compute.
Qed.

Lemma pretty_N_go_digits (x : N) :
  forall s : string,
    Forall isDigit (str s) -> Forall isDigit (str (pretty_N_go x s)).
Proof.
  induction (N.lt_wf_0 x) as [x _ IH]. intros s Hs.
  destruct (decide (x = 0%N)) as [-> | Hx]; [by rewrite pretty_N_go_0 |].
  rewrite pretty_N_go_step by lia.
  apply IH; [apply N.div_lt; lia |].
  unfold str. simpl. constructor; [apply pretty_N_char_digit | exact Hs].
Qed.

Lemma pretty_N_digits (x : N) : Forall isDigit (str (pretty x)).
Proof.
  unfold pretty, pretty_N. case_decide.
  - repeat constructor; by vm_compute.
  - apply pretty_N_go_digits. constructor.
Qed.

Lemma last_field (x x' d d' : list N) (u : N) :
  u ∉ d -> u ∉ d' -> x ++ u :: d = x' ++ u :: d' -> d = d'.
Proof.
  intros Hd Hd'. revert x'.
  induction x as [| a x IH]; intros [| a' x']; simpl; intros Heq.
  - by injection Heq.
  - injection Heq as Ha Hx. destruct Hd. rewrite Hx.
    apply elem_of_app. right. by left.
  - injection Heq as Ha Hx. destruct Hd'. rewrite <- Hx.
    apply elem_of_app. right. by left.
  - injection Heq as Ha Hx. by apply (IH x').
Qed.

(** Two request ids are the same only when their counters are: the time
    stamp and the counter are decimal numbers and the separator is none. *)
Lemma requestIdFor_counter (now now' : Z) (k k' : N) :
  requestIdFor now k = requestIdFor now' k' -> k = k'.
Proof.
  unfold requestIdFor. rewrite !(assoc_L (++) (str "req_")).
  intros Heq.
  apply (last_field (str "req_" ++ str (pretty now))
           (str "req_" ++ str (pretty now')) (str (pretty k))
           (str (pretty k')) 95%N) in Heq.
  - by apply pretty_N_inj, str_inj.
  - intros Hin. pose proof (pretty_N_digits k) as Hdig.
    rewrite Forall_forall in Hdig. apply Hdig in Hin.
    unfold isDigit in Hin. lia.
  - intros Hin. pose proof (pretty_N_digits k') as Hdig.
    rewrite Forall_forall in Hdig. apply Hdig in Hin.
    unfold isDigit in Hin. lia.
Qed.

(** *** The requests and their promises *)

Lemma settledPromises_app (es es' : list Effect) :
  settledPromises (es ++ es') = settledPromises es ++ settledPromises es'.
Proof. apply omap_app. Qed.

Lemma settledPromises_sweep (entries : list (jsstring * PendingEntry)) :
  settledPromises (flat_map sweepEffects entries) = pendingPromises entries.
Proof. induction entries as [| kv entries IH]; simpl; by f_equal. Qed.

Lemma settledPromises_closing (closing : list Effect) :
  Forall (fun e => match e with
                   | InterfaceClosed _ | StdinEnded _ | Killed _ => True
                   | _ => False
                   end) closing ->
  settledPromises closing = [].
Proof.
  induction 1 as [| e closing He _ IH]; [done |].
  unfold settledPromises in *. simpl. by destruct e.
Qed.

Section MapMoreFacts.

Context {V : Type}.

Lemma mapGet_None_keys (k : jsstring) (m : list (jsstring * V)) :
  mapGet k m = None <-> k ∉ List.map fst m.
Proof.
  induction m as [| [k' v] m IH]; simpl.
  - split; [intros _ Hin; by apply elem_of_nil in Hin | done].
  - rewrite mapGet_cons, not_elem_of_cons. case_bool_decide as Hk.
    + split; [done | by intros [Hne _]].
    + rewrite IH. split; [done | by intros [_ Hin]].
Qed.

Lemma mapSet_fresh (k : jsstring) (v : V) (m : list (jsstring * V)) :
  mapGet k m = None -> mapSet k v m = m ++ [(k, v)].
Proof.
  intros Hnone. unfold mapSet, mapHas. rewrite Hnone.
  rewrite bool_decide_false; [done |]. by intros [x Hx].
Qed.

Lemma mapDelete_fresh (k : jsstring) (m : list (jsstring * V)) :
  mapGet k m = None -> mapDelete k m = m.
Proof.
  induction m as [| [k' v] m IH]; [done |]. rewrite mapGet_cons.
  unfold mapDelete in *. simpl. case_bool_decide; [done |]. simpl.
  intros Hnone. by rewrite IH.
Qed.

Lemma mapDelete_mapSet_fresh (k : jsstring) (v : V) (m : list (jsstring * V)) :
  mapGet k m = None -> mapDelete k (mapSet k v m) = m.
Proof.
  intros Hnone. rewrite mapSet_fresh by done.
  unfold mapDelete. rewrite List.filter_app. simpl.
  rewrite bool_decide_true by done. simpl. rewrite app_nil_r.
  by apply mapDelete_fresh.
Qed.

Lemma mapDelete_keys (k : jsstring) (m : list (jsstring * V)) :
  NoDup (List.map fst m) -> NoDup (List.map fst (mapDelete k m)).
Proof.
  induction m as [| [k' v] m IH]; [done |]. simpl.
  rewrite NoDup_cons. intros [Hnotin Hnodup].
  unfold mapDelete in *. simpl. case_bool_decide; simpl; [by apply IH |].
  apply NoDup_cons. split; [| by apply IH].
  intros Hin. apply Hnotin.
  apply list_elem_of_In, in_map_iff in Hin as ([k0 v0] & Hk0 & Hin).
  apply filter_In in Hin as [Hin _].
  apply list_elem_of_In, in_map_iff. by exists (k0, v0).
Qed.

End MapMoreFacts.

Lemma pendingPromises_delete (id : jsstring) (e : PendingEntry)
    (pending : list (jsstring * PendingEntry)) :
  NoDup (List.map fst pending) -> mapGet id pending = Some e ->
  pendingPromises pending
  ≡ₚ pendingPromise e :: pendingPromises (mapDelete id pending).
Proof.
  induction pending as [| [k v] pending IH]; [done |]. simpl.
  rewrite NoDup_cons, mapGet_cons. intros [Hnotin Hnodup].
  case_bool_decide as Hk.
  - intros [= <-]. subst k.
    unfold mapDelete. simpl. rewrite bool_decide_true by done. simpl.
    fold (mapDelete id pending). rewrite mapDelete_fresh; [done |].
    by apply mapGet_None_keys.
  - intros Hget. unfold mapDelete. simpl. rewrite bool_decide_false by done.
    simpl. fold (mapDelete id pending). rewrite (IH Hnodup Hget).
    apply perm_swap.
Qed.

Lemma delete_within (tm : gmap nat Timer) (t : nat) :
  forall t' x, delete t tm !! t' = Some x -> tm !! t' = Some x.
Proof. by intros t' x [_ Hx]%lookup_delete_Some. Qed.

Lemma move_same (b : Bridge) : Move b b.
Proof. apply move_quiet; try done. by intros t x. Qed.

Lemma lineHandler_move (line : jsstring) (parsed : option Json)
    (b b' : Bridge) :
  lineHandler line parsed b = Done b' -> Move b b'.
Proof.
  unfold lineHandler. intros Hstep.
  assert (Hsame : Move b b) by apply move_same.
  destruct (trim line); [by injection Hstep as <- |].
  destruct parsed as [payload |].
  2: { injection Hstep as <-. apply move_quiet; try done; [by intros t x |].
       simpl. rewrite settledPromises_app. simpl. by rewrite app_nil_r. }
  assert (Hmatch :
            match field (str "id") payload with
            | Some (JStr id) =>
                match mapGet id (pendingRequests b) with
                | None => Done b
                | Some entry =>
                    let b1 := clearTimeout (pendingTimeout entry) b in
                    let b2 :=
                      setPending (mapDelete id (pendingRequests b1)) b1 in
                    if truthy (field (str "error") payload) then
                      Done (emit (Rejected (pendingPromise entry)
                                    (ErrorOf (default JNull
                                                (field (str "error")
                                                   payload)))) b2)
                    else
                      Done (emit (Resolved (pendingPromise entry)
                                    (field (str "letter") payload)
                                    (field (str "confidence") payload)) b2)
                end
            | _ => Done b
            end = Done b').
  { by destruct payload. }
  clear Hstep.
  destruct (field (str "id") payload) as [[| | | id | |] |];
    try (by injection Hmatch as <-).
  destruct (mapGet id (pendingRequests b)) as [entry |] eqn:Hget;
    [| by injection Hmatch as <-].
  cbv zeta in Hmatch.
  destruct (truthy _); injection Hmatch as <-;
    apply (move_settle _ _ id entry); simpl; try done;
    try (by intros t x; apply delete_within);
    rewrite !settledPromises_app; simpl; by rewrite app_nil_r.
Qed.

Lemma timerHandler_move (timer : nat) (now : Z) (b : Bridge) :
  timersOwn b -> Move b (timerHandler timer now b).
Proof.
  intros Hown. unfold timerHandler.
  assert (Hsame : Move b b) by apply move_same.
  destruct (timers b !! timer) as [x |] eqn:Htimer; [| done].
  destruct (timerDue x <=? now); [| done].
  unfold mapHas. simpl. case_bool_decide as Hhas; simpl.
  - destruct Hhas as [e Hget].
    rewrite (Hown timer x e Htimer Hget) in Hget.
    apply (move_settle _ _ (timerRequest x)
             (mkPending (timerPromise x) timer)); simpl; try done.
    + by intros t y; apply delete_within.
    + rewrite settledPromises_app. done.
  - apply move_quiet; simpl; try done.
    by intros t y; apply delete_within.
Qed.

Lemma cleanupWorker_move (b : Bridge) : Move b (cleanupWorker b).
Proof.
  destruct (cleanupWorker_spec b)
    as (_ & _ & Hc & Hpend & Htimers & _ & Hnp & _ & closing & Heff & Hcl).
  apply move_quiet.
  - exact Hc.
  - exact Hnp.
  - intros t x. by rewrite Htimers.
  - exact Hpend.
  - rewrite Heff, settledPromises_app, (settledPromises_closing closing Hcl).
    by rewrite app_nil_r.
Qed.

Lemma exitHandler_move (code signal : JsValue) (b : Bridge) :
  Move b (exitHandler code signal b).
Proof.
  unfold exitHandler.
  set (b0 := emit (Logged (WorkerExited code signal)) b).
  destruct (cleanupWorker_spec b0)
    as (_ & _ & Hc & Hpend & Htimers & _ & Hnp & _ & closing & Heff & Hcl).
  set (b1 := cleanupWorker b0) in *.
  destruct (sweep_spec (pendingRequests b1) b1)
    as (_ & _ & Hc' & _ & _ & Hnp' & _ & Heff' & _ & Hmono).
  change (fold_left _ (pendingRequests b1) b1)
    with (fold_left sweepOne (pendingRequests b1) b1).
  set (b2 := fold_left sweepOne (pendingRequests b1) b1) in *.
  apply move_sweep; simpl.
  - by rewrite Hc', Hc.
  - by rewrite Hnp', Hnp.
  - intros t x Hx. simpl in Hx.
    destruct (Hmono t) as [Hnone | Hsame]; [congruence |].
    rewrite Hsame, Htimers in Hx. exact Hx.
  - done.
  - rewrite Heff', Heff, Hpend. simpl.
    rewrite !settledPromises_app, settledPromises_sweep,
      (settledPromises_closing closing Hcl).
    simpl. by rewrite !app_nil_r.
Qed.

Lemma classify_move (image : Json) (now : Z) (writeOk : bool) (b : Bridge) :
  Move b (snd (classifyLetterFromBase64 image now writeOk b)).
Proof.
  destruct b as [proc iface n pend tm nt np npr eff].
  unfold classifyLetterFromBase64, ensureWorker, startWorker.
  destruct proc as [[p k] |]; simpl.
  - destruct k; simpl; [by apply move_same |].
    destruct writeOk; simpl.
    + apply (move_register _ _ now); simpl; try done.
      rewrite settledPromises_app. simpl. by rewrite app_nil_r.
    + apply (move_refuse _ _ now); simpl; try done.
      * intros t x Hx. simpl in Hx.
        apply lookup_delete_Some in Hx as [Hne Hx].
        by apply lookup_insert_Some in Hx as [[? _] | [_ Hx]].
      * rewrite !settledPromises_app. simpl. by rewrite ?app_nil_r.
  - destruct writeOk; simpl.
    + apply (move_register _ _ now); simpl; try done.
      rewrite !settledPromises_app. simpl. by rewrite !app_nil_r.
    + apply (move_refuse _ _ now); simpl; try done.
      * intros t x Hx. simpl in Hx.
        apply lookup_delete_Some in Hx as [Hne Hx].
        by apply lookup_insert_Some in Hx as [[? _] | [_ Hx]].
      * rewrite !settledPromises_app. simpl. by rewrite ?app_nil_r.
Qed.

Lemma bridgeStep_move (e : BridgeEvent) (b b' : Bridge) :
  timersOwn b -> bridgeStep e b = Done b' -> Move b b'.
Proof.
  intros Hown.
  destruct e as [image now ok | line parsed | msg | code signal | timer now |];
    simpl; intros Hstep.
  - injection Hstep as <-. apply classify_move.
  - by eapply lineHandler_move.
  - injection Hstep as <-. apply move_quiet; try done; [by intros t x |].
    simpl. rewrite settledPromises_app. simpl. by rewrite app_nil_r.
  - injection Hstep as <-. apply exitHandler_move.
  - injection Hstep as <-. by apply timerHandler_move.
  - injection Hstep as <-. apply cleanupWorker_move.
Qed.

Lemma pending_issued (b : Bridge) (id : jsstring) (e : PendingEntry) :
  bridgeInv b -> timersIssued b ->
  mapGet id (pendingRequests b) = Some e -> issued (requestCounter b) id.
Proof.
  intros [_ Harmed] Hissued Hget.
  destruct (Harmed id e Hget) as [due Hdue].
  exact (Hissued _ _ Hdue).
Qed.

Lemma issued_not_next (counter : N) (now : Z) :
  ~ issued counter (requestIdFor now (counter + 1)).
Proof.
  intros (now' & k & Heq & Hle). apply requestIdFor_counter in Heq. lia.
Qed.

(** The id of the next call is the id of no pending request. *)
Lemma fresh_id (b : Bridge) (now : Z) :
  bridgeInv b -> timersIssued b ->
  mapGet (requestIdFor now (requestCounter b + 1)) (pendingRequests b) = None.
Proof.
  intros Hinv Hissued.
  destruct (mapGet _ (pendingRequests b)) as [e |] eqn:Hget; [| done].
  destruct (issued_not_next (requestCounter b) now).
  by eapply pending_issued.
Qed.

Lemma move_ledger (b b' : Bridge) :
  bridgeInv b -> ledgerInv b -> Move b b' -> ledgerInv b'.
Proof.
  intros Hinv (Hissued & Hown & Hkeys & Hacc) Hmove.
  unfold ledgerInv, timersIssued, timersOwn, keysDistinct, promisesAccounted
    in *.
  destruct Hmove as [Hc Hnp Hin Hpend Hset | id e Hc Hnp Hin Hget Hpend Hset
                    | Hc Hnp Hin Hpend Hset | now id Hc Hnp Htm Hpend Hset
                    | now id Hc Hnp Hin Hpend Hset];
    rewrite Hc, Hnp, Hpend, Hset.
  - repeat split; try done.
    + intros t x Hx. by eapply Hissued, Hin.
    + intros t x e Hx. by eapply Hown, Hin.
  - repeat split.
    + intros t x Hx. by eapply Hissued, Hin.
    + intros t x e' Hx Hget'. apply (Hown t x e'); [by apply Hin |].
      destruct (decide (id = timerRequest x)) as [-> | Hne].
      * by rewrite mapGet_mapDelete in Hget'.
      * by rewrite mapGet_mapDelete_ne in Hget'.
    + by apply mapDelete_keys.
    + rewrite <- Hacc, (pendingPromises_delete id e _ Hkeys Hget).
      by rewrite <- (assoc_L (++)).
  - repeat split.
    + intros t x Hx. by eapply Hissued, Hin.
    + done.
    + constructor.
    + by rewrite app_nil_r.
  - assert (Hfresh : mapGet id (pendingRequests b) = None)
      by (by apply fresh_id).
    rewrite Htm. repeat split.
    + intros t x [[<- <-] | [_ Hx]]%lookup_insert_Some; simpl.
      * exists now, (requestCounter b + 1)%N. split; [done | lia].
      * destruct (Hissued t x Hx) as (now' & k & Hid & Hle).
        exists now', k. split; [done | lia].
    + intros t x e [[<- <-] | [Hne Hx]]%lookup_insert_Some; simpl.
      * rewrite mapGet_mapSet. by intros [= <-].
      * rewrite mapGet_mapSet_ne; [by apply Hown |].
        intros Heq. destruct (issued_not_next (requestCounter b) now).
        fold id. rewrite Heq. by eapply Hissued.
    + rewrite mapSet_fresh by done. rewrite map_app. simpl.
      apply NoDup_app. split; [done |]. split; [| apply NoDup_singleton].
      intros k Hk ->%list_elem_of_singleton.
      by apply mapGet_None_keys in Hfresh.
    + rewrite mapSet_fresh by done. unfold pendingPromises in *.
      rewrite seq_S, map_app, (assoc_L (++)), Hacc. done.
  - assert (Hfresh : mapGet id (pendingRequests b) = None)
      by (by apply fresh_id).
    rewrite mapDelete_mapSet_fresh by done. repeat split.
    + intros t x Hx.
      destruct (Hissued t x (Hin t x Hx)) as (now' & k & Hid & Hle).
      exists now', k. split; [done | lia].
    + intros t x e Hx. by eapply Hown, Hin.
    + done.
    + rewrite seq_S, <- Hacc. simpl.
      rewrite <- !(assoc_L (++)). apply Permutation_app_head.
      apply Permutation_app_comm.
Qed.

Lemma cleanupWorker_held (b : Bridge) : workerHeld (cleanupWorker b).
Proof.
  destruct (cleanupWorker_spec b) as (Hproc & Hiface & _).
  unfold workerHeld. by rewrite Hproc.
Qed.

Lemma worker_exit_state (code signal : JsValue) (b : Bridge) :
  pythonProcess (exitHandler code signal b) = None /\
  stdoutInterface (exitHandler code signal b) = None.
Proof.
  unfold exitHandler.
  set (b0 := emit (Logged (WorkerExited code signal)) b).
  destruct (cleanupWorker_spec b0) as (Hproc & Hiface & _).
  set (b1 := cleanupWorker b0) in *.
  destruct (sweep_spec (pendingRequests b1) b1) as (Hproc' & Hiface' & _).
  change (fold_left _ (pendingRequests b1) b1)
    with (fold_left sweepOne (pendingRequests b1) b1).
  simpl. by rewrite Hproc', Hiface'.
Qed.

Lemma lineHandler_held (line : jsstring) (parsed : option Json)
    (b b' : Bridge) :
  lineHandler line parsed b = Done b' -> workerHeld b -> workerHeld b'.
Proof.
  unfold lineHandler. intros Hstep Hheld.
  destruct (trim line); [by injection Hstep as <- |].
  destruct parsed as [payload |]; [| by injection Hstep as <-].
  assert (Hmatch :
            match field (str "id") payload with
            | Some (JStr id) =>
                match mapGet id (pendingRequests b) with
                | None => Done b
                | Some entry =>
                    let b1 := clearTimeout (pendingTimeout entry) b in
                    let b2 :=
                      setPending (mapDelete id (pendingRequests b1)) b1 in
                    if truthy (field (str "error") payload) then
                      Done (emit (Rejected (pendingPromise entry)
                                    (ErrorOf (default JNull
                                                (field (str "error")
                                                   payload)))) b2)
                    else
                      Done (emit (Resolved (pendingPromise entry)
                                    (field (str "letter") payload)
                                    (field (str "confidence") payload)) b2)
                end
            | _ => Done b
            end = Done b').
  { by destruct payload. }
  clear Hstep.
  destruct (field (str "id") payload) as [[| | | id | |] |];
    try (by injection Hmatch as <-).
  destruct (mapGet id (pendingRequests b)) as [entry |];
    [| by injection Hmatch as <-].
  cbv zeta in Hmatch. by destruct (truthy _); injection Hmatch as <-.
Qed.

Lemma timerHandler_held (timer : nat) (now : Z) (b : Bridge) :
  workerHeld b -> workerHeld (timerHandler timer now b).
Proof.
  intros Hheld. unfold timerHandler.
  destruct (timers b !! timer) as [x |]; [| done].
  destruct (timerDue x <=? now); [| done].
  by destruct (mapHas _ _).
Qed.

Lemma exitHandler_held (code signal : JsValue) (b : Bridge) :
  workerHeld (exitHandler code signal b).
Proof.
  destruct (worker_exit_state code signal b) as [Hproc Hiface].
  unfold workerHeld. by rewrite Hproc.
Qed.

Lemma bridgeStep_held (e : BridgeEvent) (b b' : Bridge) :
  bridgeStep e b = Done b' -> workerHeld b -> workerHeld b'.
Proof.
  destruct e as [image now ok | line parsed | msg | code signal | timer now |];
    simpl; intros Hstep Hheld.
  - injection Hstep as <-.
    destruct b as [proc iface n pend tm nt np npr eff].
    unfold workerHeld in *. unfold classifyLetterFromBase64, ensureWorker,
      startWorker. simpl in *.
    destruct proc as [[p k] |]; simpl in *.
    + destruct Hheld as (-> & -> & Hlt). by destruct ok.
    + destruct ok; simpl; repeat split; lia.
  - by eapply lineHandler_held.
  - injection Hstep as <-. exact Hheld.
  - injection Hstep as <-. apply exitHandler_held.
  - injection Hstep as <-. by apply timerHandler_held.
  - injection Hstep as <-. apply cleanupWorker_held.
Qed.

Lemma bridgeStep_wf (e : BridgeEvent) (b b' : Bridge) :
  bridgeStep e b = Done b' -> bridgeWF b -> bridgeWF b'.
Proof.
  intros Hstep (Hinv & Hheld & Hledger).
  split; [by eapply bridgeStep_inv |].
  split; [by eapply bridgeStep_held |].
  apply (move_ledger b b' Hinv Hledger).
  apply (bridgeStep_move e); [apply Hledger | done].
Qed.

Lemma initialBridge_wf : bridgeWF initialBridge.
Proof.
  split; [apply initialBridge_inv |]. split; [done |].
  repeat split.
  - intros t x Hx. simpl in Hx. by rewrite lookup_empty in Hx.
  - intros t x e Hx. simpl in Hx. by rewrite lookup_empty in Hx.
  - constructor.
  - by unfold promisesAccounted.
Qed.

Lemma bridgeReaches_wf (b b' : Bridge) :
  bridgeReaches b b' -> bridgeWF b -> bridgeWF b'.
Proof.
  induction 1 as [| e b1 b2 _ IH Hstep]; intros Hwf; [done |].
  by eapply bridgeStep_wf, IH.
Qed.

Lemma reachable_bridge_wf (b : Bridge) :
  bridgeReaches initialBridge b -> bridgeWF b.
Proof. intros Hreach. exact (bridgeReaches_wf _ _ Hreach initialBridge_wf). Qed.

Lemma accounted_lt (b : Bridge) (p : nat) :
  promisesAccounted b ->
  (p < nextPromise b)%nat
  <-> p ∈ settledPromises (effects b)
      \/ p ∈ pendingPromises (pendingRequests b).
Proof.
  unfold promisesAccounted. intros Hacc.
  rewrite <- elem_of_app, Hacc, elem_of_seq. lia.
Qed.

Lemma accounted_NoDup (b : Bridge) :
  promisesAccounted b ->
  NoDup (settledPromises (effects b) ++ pendingPromises (pendingRequests b)).
Proof. unfold promisesAccounted. intros ->. apply NoDup_seq. Qed.

Lemma mapGet_of_elem {V : Type} (k : jsstring) (v : V)
    (m : list (jsstring * V)) :
  NoDup (List.map fst m) -> (k, v) ∈ m -> mapGet k m = Some v.
Proof.
  induction m as [| [k' v'] m IH]; simpl.
  - intros _ Hin. by apply elem_of_nil in Hin.
  - rewrite NoDup_cons, mapGet_cons. intros [Hnotin Hnodup] Hin.
    apply elem_of_cons in Hin as [[= <- <-] | Hin].
    + by rewrite bool_decide_true.
    + case_bool_decide as Hk; [| by apply IH]. subst k'.
      destruct Hnotin. apply list_elem_of_In, in_map_iff.
      exists (k, v). split; [done | by apply list_elem_of_In].
Qed.

(** What a call does when the worker is held as the handlers leave it. *)
Lemma classify_held (image : Json) (now : Z) (writeOk : bool) (b : Bridge) :
  workerHeld b ->
  let id := requestIdFor now (requestCounter b + 1) in
  let promise := nextPromise b in
  let timer := nextTimer b in
  let out := classifyLetterFromBase64 image now writeOk b in
  fst out = Returned promise /\
  pendingRequests (snd out)
  = (if writeOk then mapSet id (mkPending promise timer) (pendingRequests b)
     else
       mapDelete id (mapSet id (mkPending promise timer) (pendingRequests b)))
  /\
  timers (snd out)
  = (if writeOk then
       <[timer := mkTimer id promise (now + REQUEST_TIMEOUT_MS)]> (timers b)
     else
       delete timer
         (<[timer := mkTimer id promise (now + REQUEST_TIMEOUT_MS)]>
            (timers b))) /\
  settledPromises (effects (snd out))
  = settledPromises (effects b) ++ (if writeOk then [] else [promise]) /\
  (writeOk = false ->
   rejections (effects (snd out))
   = rejections (effects b) ++ [(promise, WriteError)]) /\
  (writeOk = true ->
   exists process,
     pythonProcess (snd out) = Some (mkProcess process false) /\
     effects (snd out)
     = effects (ensureWorker b)
       ++ [Written process (requestMessage now (requestCounter b + 1) image)]).
Proof.
  intros Hheld id promise timer out. subst out id promise timer.
  destruct b as [proc iface n pend tm nt np npr eff].
  unfold workerHeld in Hheld.
  unfold classifyLetterFromBase64, ensureWorker, startWorker.
  simpl in *. destruct proc as [[p k] |]; simpl in *.
  - destruct Hheld as (-> & _). destruct writeOk; simpl;
      rewrite ?settledPromises_app; simpl; rewrite ?app_nil_r;
      repeat split; try done.
    + intros _. by exists p.
    + intros _. unfold rejections. rewrite !omap_app. simpl.
      by rewrite app_nil_r.
  - destruct writeOk; simpl;
      rewrite ?settledPromises_app; simpl; rewrite ?app_nil_r;
      repeat split; try done.
    + intros _. by exists npr.
    + intros _. unfold rejections. rewrite !omap_app. simpl.
      by rewrite !app_nil_r.
Qed.

(** A response that names a pending request: the handler clears the timer
    of the request, removes its entry and settles its promise. *)
Lemma lineHandler_matched (line : jsstring) (payload : Json) (id : jsstring)
    (e : PendingEntry) (b : Bridge) :
  trim line <> [] ->
  field (str "id") payload = Some (JStr id) ->
  mapGet id (pendingRequests b) = Some e ->
  lineHandler line (Some payload) b
  = Done (emit (if truthy (field (str "error") payload) then
                  Rejected (pendingPromise e)
                    (ErrorOf (default JNull (field (str "error") payload)))
                else
                  Resolved (pendingPromise e) (field (str "letter") payload)
                    (field (str "confidence") payload))
            (setPending (mapDelete id (pendingRequests b))
               (clearTimeout (pendingTimeout e) b))).
Proof.
  intros Hline Hid Hget.
  unfold lineHandler. destruct (trim line); [done |].
  destruct payload; try discriminate Hid.
  rewrite Hid, Hget. cbv zeta. by destruct (truthy _).
Qed.

(** X15: in every state the bridge can reach, a call does not throw: it
    returns a new promise, one that is neither settled nor pending yet.  Its
    request id is the id of no pending request and of no armed timer, so
    the call adds its entry at the end of the pending requests and arms its
    timer without touching another request.  When the write to the worker
    fails, the pending requests and the timers are left as they were before
    the call and the promise is rejected with the error of the write. *)
Theorem call_registers_a_fresh_request :
  forall (image : Json) (now : Z) (writeOk : bool) (b : Bridge),
    bridgeReaches initialBridge b ->
    let id := requestIdFor now (requestCounter b + 1) in
    let promise := nextPromise b in
    let timer := nextTimer b in
    let out := classifyLetterFromBase64 image now writeOk b in
    fst out = Returned promise /\
    mapGet id (pendingRequests b) = None /\
    (forall t x, timers b !! t = Some x -> timerRequest x <> id) /\
    (promise ∉ settledPromises (effects b)) /\
    (promise ∉ pendingPromises (pendingRequests b)) /\
    pendingRequests (snd out)
    = (if writeOk then pendingRequests b ++ [(id, mkPending promise timer)]
       else pendingRequests b) /\
    timers (snd out)
    = (if writeOk then
         <[timer := mkTimer id promise (now + REQUEST_TIMEOUT_MS)]> (timers b)
       else timers b) /\
    settledPromises (effects (snd out))
    = settledPromises (effects b) ++ (if writeOk then [] else [promise]) /\
    (writeOk = false ->
     rejections (effects (snd out))
     = rejections (effects b) ++ [(promise, WriteError)]).
Proof.
  intros image now writeOk b Hreach id promise timer out.
  destruct (reachable_bridge_wf b Hreach)
    as (Hinv & Hheld & Hissued & Hown & Hkeys & Hacc).
  assert (Hfresh : mapGet id (pendingRequests b) = None) by (by apply fresh_id).
  assert (Hnew : ~ (promise < nextPromise b)%nat) by (unfold promise; lia).
  rewrite (accounted_lt b promise Hacc) in Hnew.
  assert (Hfree : timers b !! timer = None).
  { destruct (timers b !! timer) as [x |] eqn:Hx; [| done].
    destruct Hinv as [Hknown _]. apply Hknown in Hx. unfold timer in Hx. lia. }
  destruct (classify_held image now writeOk b Hheld)
    as (Hret & Hpend & Htimers & Hsettled & Hrej & _).
  fold id promise timer out in Hret, Hpend, Htimers, Hsettled, Hrej.
  split; [done |]. split; [done |].
  split.
  { intros t x Hx Heq. destruct (issued_not_next (requestCounter b) now).
    fold id. rewrite <- Heq. by eapply Hissued. }
  split; [tauto |]. split; [tauto |].
  split.
  { rewrite Hpend. destruct writeOk.
    - by apply mapSet_fresh.
    - by apply mapDelete_mapSet_fresh. }
  split; [| done].
  rewrite Htimers. destruct writeOk; [done |].
  by apply delete_insert_id.
Qed.

Lemma call_registers_a_fresh_request_witness :
  fst (classifyLetterFromBase64 someImage 1000 true initialBridge)
  = Returned 0%nat.
Proof.
  destruct (call_registers_a_fresh_request someImage 1000 true initialBridge
              (reaches_here initialBridge)) as (Hret & _).
  exact Hret.
Defined.

(** X16: in every state the bridge can reach, no promise has been settled
    twice, no settled promise is still pending, no promise is pending under
    two requests, every promise handed out so far is settled or pending,
    and every pending promise has its request in the map with its timer
    armed. *)
Theorem every_promise_settled_once_or_pending :
  forall b : Bridge,
    bridgeReaches initialBridge b ->
    NoDup (settledPromises (effects b)) /\
    NoDup (pendingPromises (pendingRequests b)) /\
    (forall p,
        p ∈ settledPromises (effects b) ->
        p ∉ pendingPromises (pendingRequests b)) /\
    (forall p,
        (p < nextPromise b)%nat
        <-> p ∈ settledPromises (effects b)
            \/ p ∈ pendingPromises (pendingRequests b)) /\
    (forall p,
        p ∈ pendingPromises (pendingRequests b) ->
        exists id timer due, armed id p timer due b).
Proof.
  intros b Hreach.
  destruct (reachable_bridge_wf b Hreach)
    as ([Hknown Harmed] & _ & _ & _ & Hkeys & Hacc).
  pose proof (accounted_NoDup b Hacc) as Hnodup.
  apply NoDup_app in Hnodup as (Hsettled & Hdisjoint & Hpending).
  split; [done |]. split; [done |]. split; [done |].
  split; [intros p; by apply accounted_lt |].
  intros p Hin.
  apply list_elem_of_In, in_map_iff in Hin as ([id e] & <- & Hin).
  apply list_elem_of_In, (mapGet_of_elem id e _ Hkeys) in Hin.
  destruct (Harmed id e Hin) as [due Hdue].
  exists id, (pendingTimeout e), due. split; [by destruct e | done].
Qed.

Lemma every_promise_settled_once_or_pending_witness :
  NoDup (settledPromises (effects bridgeWithThreePending)) /\
  NoDup (pendingPromises (pendingRequests bridgeWithThreePending)).
Proof.
  assert (Hreach : bridgeReaches initialBridge bridgeWithThreePending).
  { apply (reaches_step _ (Called someImage 1002 true)
             (snd (classifyLetterFromBase64 someImage 1001 true
                     (snd (classifyLetterFromBase64 someImage 1000 true
                             initialBridge))))); [| by vm_compute].
    apply (reaches_step _ (Called someImage 1001 true)
             (snd (classifyLetterFromBase64 someImage 1000 true
                     initialBridge))); [| by vm_compute].
    apply (reaches_step _ (Called someImage 1000 true) initialBridge);
      [apply reaches_here | by vm_compute]. }
  destruct (every_promise_settled_once_or_pending bridgeWithThreePending
              Hreach) as (Hs & Hp & _).
  by split.
Defined.

(** X17: a response line that names a pending request settles the promise
    of that request, which was not settled before: it is rejected when the
    response carries a truthy [error] and resolved with the [letter] and
    [confidence] of the response otherwise.  The timer of the request is
    cleared and no armed timer refers to the request any more, the other
    pending requests and their timers are as they were, and the same
    response read again is dropped. *)
Theorem response_settles_its_own_request :
  forall (line : jsstring) (payload : Json) (id : jsstring)
         (e : PendingEntry) (b : Bridge),
    bridgeReaches initialBridge b ->
    trim line <> [] ->
    field (str "id") payload = Some (JStr id) ->
    mapGet id (pendingRequests b) = Some e ->
    let settle :=
      if truthy (field (str "error") payload) then
        Rejected (pendingPromise e)
          (ErrorOf (default JNull (field (str "error") payload)))
      else
        Resolved (pendingPromise e) (field (str "letter") payload)
          (field (str "confidence") payload) in
    exists b',
      lineHandler line (Some payload) b = Done b' /\
      effects b' = effects b ++ [TimerCleared (pendingTimeout e); settle] /\
      (pendingPromise e ∉ settledPromises (effects b)) /\
      pendingRequests b' = mapDelete id (pendingRequests b) /\
      timers b' = delete (pendingTimeout e) (timers b) /\
      (forall other entry,
          other <> id ->
          mapGet other (pendingRequests b) = Some entry ->
          mapGet other (pendingRequests b') = Some entry /\
          timers b' !! pendingTimeout entry
          = timers b !! pendingTimeout entry) /\
      (forall t x, timers b' !! t = Some x -> timerRequest x <> id) /\
      (forall line', lineHandler line' (Some payload) b' = Done b').
Proof.
  intros line payload id e b Hreach Hline Hid Hget settle.
  destruct (reachable_bridge_wf b Hreach)
    as ([Hknown Harmed] & _ & _ & Hown & Hkeys & Hacc).
  exists (emit settle
            (setPending (mapDelete id (pendingRequests b))
               (clearTimeout (pendingTimeout e) b))).
  assert (Hgone : mapGet id (mapDelete id (pendingRequests b)) = None)
    by apply mapGet_mapDelete.
  split; [by apply lineHandler_matched |].
  split. { simpl. by rewrite <- (assoc_L (++)). }
  split.
  { pose proof (accounted_NoDup b Hacc) as Hnodup.
    apply NoDup_app in Hnodup as (_ & Hdisjoint & _).
    intros Hin. apply (Hdisjoint _ Hin).
    apply list_elem_of_In, in_map_iff. exists (id, e).
    split; [done |]. by apply list_elem_of_In, mapGet_elem. }
  split; [done |]. split; [done |].
  split.
  { intros other entry Hne Hother. simpl.
    rewrite mapGet_mapDelete_ne by done. split; [done |].
    apply lookup_delete_ne. intros Heq.
    destruct (Harmed id e Hget) as [due Hdue].
    destruct (Harmed other entry Hother) as [due' Hdue'].
    rewrite Heq, Hdue' in Hdue. by injection Hdue. }
  split.
  { intros t x Hx Hreq. simpl in Hx.
    apply lookup_delete_Some in Hx as [Hne Hx]. rewrite <- Hreq in Hget.
    apply Hne. by rewrite (Hown t x e Hx Hget). }
  intros line'. unfold lineHandler. destruct (trim line'); [done |].
  destruct payload; try discriminate Hid.
  rewrite Hid. simpl. by rewrite Hgone.
Qed.

Lemma response_settles_its_own_request_witness :
  exists b',
    lineHandler (str "{}")
      (Some (JObj [(str "id", JStr (requestIdFor 1000 1));
                   (str "letter", JStr (str "H"));
                   (str "confidence", JNum 0.9%float)]))
      bridgeAfterCall = Done b' /\
    effects b'
    = effects bridgeAfterCall
      ++ [TimerCleared 0%nat;
          Resolved 0%nat (Some (JStr (str "H"))) (Some (JNum 0.9%float))].
Proof.
  assert (Hreach : bridgeReaches initialBridge bridgeAfterCall).
  { apply (reaches_step _ (Called someImage 1000 true) initialBridge);
      [apply reaches_here | by vm_compute]. }
  destruct (response_settles_its_own_request (str "{}")
              (JObj [(str "id", JStr (requestIdFor 1000 1));
                     (str "letter", JStr (str "H"));
                     (str "confidence", JNum 0.9%float)])
              (requestIdFor 1000 1) (mkPending 0 0) bridgeAfterCall Hreach)
    as (b' & Hstep & Heff & _); [by vm_compute | done | by vm_compute |].
  exists b'. split; [exact Hstep | exact Heff].
Defined.

(** X18: [stopClassifier] closes the interface, ends the standard input
    and kills the process that is held, and nothing else: the requests that
    are pending stay pending with their timers armed (they are not
    rejected by the stop).  Stopping twice is stopping once, and the next
    call spawns a fresh process and returns a promise. *)
Theorem stop_leaves_the_requests_pending :
  forall b : Bridge,
    bridgeReaches initialBridge b ->
    let b' := stopClassifier b in
    pythonProcess b' = None /\
    stdoutInterface b' = None /\
    effects b'
    = effects b
      ++ match pythonProcess b with
         | Some p => [InterfaceClosed (pid p); StdinEnded (pid p);
                      Killed (pid p)]
         | None => []
         end /\
    pendingRequests b' = pendingRequests b /\
    timers b' = timers b /\
    requestCounter b' = requestCounter b /\
    stopClassifier b' = b' /\
    (forall image now writeOk,
        fst (classifyLetterFromBase64 image now writeOk b')
        = Returned (nextPromise b) /\
        pythonProcess (snd (classifyLetterFromBase64 image now writeOk b'))
        = Some (mkProcess (nextProcess b) false)).
Proof.
  intros b Hreach b'.
  destruct (reachable_bridge_wf b Hreach) as (_ & Hheld & _).
  subst b'. unfold stopClassifier, cleanupWorker.
  destruct b as [proc iface n pend tm nt np npr eff].
  unfold workerHeld in Hheld. simpl in *.
  destruct proc as [[p k] |]; simpl in *.
  - destruct Hheld as (-> & -> & _). simpl.
    rewrite <- !(assoc_L (++)). repeat split; by destruct writeOk.
  - rewrite Hheld. simpl. rewrite app_nil_r.
    repeat split; by destruct writeOk.
Qed.

Lemma stop_leaves_the_requests_pending_witness :
  pendingRequests (stopClassifier bridgeWithThreePending)
  = pendingRequests bridgeWithThreePending /\
  timers (stopClassifier bridgeWithThreePending)
  = timers bridgeWithThreePending.
Proof.
  assert (Hreach : bridgeReaches initialBridge bridgeWithThreePending).
  { apply (reaches_step _ (Called someImage 1002 true)
             (snd (classifyLetterFromBase64 someImage 1001 true
                     (snd (classifyLetterFromBase64 someImage 1000 true
                             initialBridge))))); [| by vm_compute].
    apply (reaches_step _ (Called someImage 1001 true)
             (snd (classifyLetterFromBase64 someImage 1000 true
                     initialBridge))); [| by vm_compute].
    apply (reaches_step _ (Called someImage 1000 true) initialBridge);
      [apply reaches_here | by vm_compute]. }
  destruct (stop_leaves_the_requests_pending bridgeWithThreePending Hreach)
    as (_ & _ & _ & Hpend & Htimers & _).
  by split.
Defined.

Lemma cleanupWorker_effects (b : Bridge) :
  effects (cleanupWorker b)
  = effects b
    ++ match stdoutInterface b with
       | Some i => [InterfaceClosed i]
       | None => []
       end
    ++ match pythonProcess b with
       | Some p =>
           StdinEnded (pid p) :: (if killed p then [] else [Killed (pid p)])
       | None => []
       end.
Proof.
  destruct b as [proc iface n pend tm nt np npr eff]. unfold cleanupWorker.
  destruct iface as [i |], proc as [[p k] |]; simpl; try destruct k; simpl;
    rewrite <- ?(assoc_L (++)), ?app_nil_r; done.
Qed.

Lemma exitHandler_effects (code signal : JsValue) (b : Bridge) :
  effects (exitHandler code signal b)
  = effects (cleanupWorker (emit (Logged (WorkerExited code signal)) b))
    ++ flat_map sweepEffects (pendingRequests b).
Proof.
  unfold exitHandler.
  set (b0 := emit (Logged (WorkerExited code signal)) b).
  destruct (cleanupWorker_spec b0) as (_ & _ & _ & Hsame & _).
  destruct (sweep_spec (pendingRequests (cleanupWorker b0)) (cleanupWorker b0))
    as (_ & _ & _ & _ & _ & _ & _ & Hsweep & _).
  change (fold_left _ (pendingRequests (cleanupWorker b0)) (cleanupWorker b0))
    with (fold_left sweepOne (pendingRequests (cleanupWorker b0))
            (cleanupWorker b0)).
  cbn [effects setPending]. rewrite Hsweep, Hsame. done.
Qed.

(** X19: the handler of a worker's exit does not look at which process has
    exited.  When a call has spawned a new worker after [stopClassifier],
    an exit reported afterwards kills that new worker and rejects the
    request of the call with the error of the worker's exit. *)
Theorem exit_handler_takes_any_worker :
  forall (image : Json) (now : Z) (code signal : JsValue) (b : Bridge),
    let b1 := stopClassifier b in
    let out := classifyLetterFromBase64 image now true b1 in
    let b3 := exitHandler code signal (snd out) in
    fst out = Returned (nextPromise b) /\
    pythonProcess (snd out) = Some (mkProcess (nextProcess b) false) /\
    mapGet (requestIdFor now (requestCounter b + 1))
      (pendingRequests (snd out))
    = Some (mkPending (nextPromise b) (nextTimer b)) /\
    Killed (nextProcess b) ∈ effects b3 /\
    Rejected (nextPromise b) workerExited ∈ effects b3 /\
    pythonProcess b3 = None /\
    pendingRequests b3 = [].
Proof.
  intros image now code signal b b1 out b3.
  destruct (cleanupWorker_spec b)
    as (Hproc & Hiface & Hc & Hpend & Htimers & Hnt & Hnp & Hnpr & _).
  fold (stopClassifier b) in Hproc, Hiface, Hc, Hpend, Htimers, Hnt, Hnp, Hnpr.
  fold b1 in Hproc, Hiface, Hc, Hpend, Htimers, Hnt, Hnp, Hnpr.
  destruct (classify_starts_worker image now true b1 Hproc)
    as (Hret & Hnew & _ & Hpending).
  fold out in Hret, Hnew, Hpending.
  rewrite Hc, Hnt, Hnp in Hpending. rewrite Hnp in Hret. rewrite Hnpr in Hnew.
  assert (Hget : mapGet (requestIdFor now (requestCounter b + 1))
                   (pendingRequests (snd out))
                 = Some (mkPending (nextPromise b) (nextTimer b))).
  { rewrite Hpending. apply mapGet_mapSet. }
  clearbody out. clear Hpending.
  split; [done |]. split; [done |]. split; [done |].
  destruct (worker_exit_state code signal (snd out)) as [Hnone _].
  pose proof (exitHandler_effects code signal (snd out)) as Hexit.
  rewrite cleanupWorker_effects in Hexit. cbn [pythonProcess emit] in Hexit.
  rewrite Hnew in Hexit. cbn [killed pid] in Hexit.
  fold b3 in Hexit, Hnone.
  split.
  { rewrite Hexit, !elem_of_app. left. right. right. right. by left. }
  split.
  { rewrite Hexit, !elem_of_app. right.
    apply list_elem_of_In, in_flat_map. eexists (_, _).
    split; [apply list_elem_of_In, mapGet_elem, Hget |].
    cbn. by right; left. }
  split; [done |]. done.
Qed.

(** X20: the route of [/api/classify-letter] from the request to the
    settled promise.  Without an image (absent or falsy) it answers 400 and
    does not touch the bridge, so no worker is spawned.  With an image, in
    every state the bridge can reach, it does not fail at once: it writes
    the request to the worker under the id of the call and waits for the
    promise of the call, for the session named in the body or [default]; a
    response line with that id then settles this very promise, with the
    letter and confidence of the response or with its error. *)
Theorem frame_goes_to_the_worker_and_back :
  forall (body : ClassifyBody) (now : Z) (b : Bridge),
    bridgeReaches initialBridge b ->
    let sessionId := default (str "default") (bodyFrameSession body) in
    let id := requestIdFor now (requestCounter b + 1) in
    (truthy (bodyImage body) = false ->
     forall writeOk,
       classifyRoute_start (Some body) now writeOk b
       = (FrameResponded NoImage, b)) /\
    (forall image,
        bodyImage body = Some image -> truthy (Some image) = true ->
        exists b1 process,
          classifyRoute_start (Some body) now true b
          = (FrameAwaiting (nextPromise b) sessionId, b1) /\
          pythonProcess b1 = Some (mkProcess process false) /\
          effects b1
          = effects (ensureWorker b)
            ++ [Written process
                  (JObj [(str "id", JStr id); (str "image", image)])] /\
          forall line payload,
            trim line <> [] ->
            field (str "id") payload = Some (JStr id) ->
            exists b2,
              lineHandler line (Some payload) b1 = Done b2 /\
              effects b2
              = effects b1
                ++ [TimerCleared (nextTimer b);
                    if truthy (field (str "error") payload) then
                      Rejected (nextPromise b)
                        (ErrorOf (default JNull
                                    (field (str "error") payload)))
                    else
                      Resolved (nextPromise b) (field (str "letter") payload)
                        (field (str "confidence") payload)]).
Proof.
  intros body now b Hreach sessionId id.
  destruct (reachable_bridge_wf b Hreach) as (_ & Hheld & _).
  split.
  { intros Hfalsy writeOk. unfold classifyRoute_start.
    destruct (bodyImage body) as [image |]; [| done]. by rewrite Hfalsy. }
  intros image Himage Htruthy.
  destruct (classify_held image now true b Hheld)
    as (Hret & Hpend & _ & _ & _ & Hsent).
  destruct (Hsent eq_refl) as (process & Hproc & Heff).
  destruct (classifyLetterFromBase64 image now true b) as [r b1] eqn:Hcall.
  simpl in Hret, Hpend, Hproc, Heff. subst r.
  exists b1, process.
  split. { unfold classifyRoute_start. by rewrite Himage, Htruthy, Hcall. }
  split; [done |]. split; [done |].
  intros line payload Hline Hid.
  assert (Hget : mapGet id (pendingRequests b1)
                 = Some (mkPending (nextPromise b) (nextTimer b))).
  { rewrite Hpend. apply mapGet_mapSet. }
  eexists. split.
  { by apply (lineHandler_matched line payload id
                (mkPending (nextPromise b) (nextTimer b)) b1). }
  simpl. by rewrite <- (assoc_L (++)).
Qed.

Lemma frame_goes_to_the_worker_and_back_witness :
  classifyRoute_start (Some (mkClassifyBody None None)) 1000 true
    initialBridge
  = (FrameResponded NoImage, initialBridge).
Proof.
  destruct (frame_goes_to_the_worker_and_back (mkClassifyBody None None)
              1000 initialBridge (reaches_here initialBridge))
    as [Hnone _].
  exact (Hnone eq_refl true).
Defined.

(** ** The deadline of a request *)













